(** * better-fetch: the request execution pipeline

    A shallow embedding of [packages/better-fetch/src/fetch.ts] and the
    properties its specification states about it.

    The pipeline is asynchronous, effectful JavaScript. It is embedded as a
    computation in a small monad [M] that threads the state of the outside
    world, may end in a thrown value, and records a trace of the calls the
    pipeline makes to its collaborators (hooks, transport, response body,
    parser, schema validator, retry strategy, timers). The collaborators that
    live in other modules of the package ([./plugins], [./retry], [./url],
    [./utils], [./error]) are gathered in an environment record [Env]. *)

From Stdlib Require Import ZArith.
From stdpp Require Import gmap strings list fin_maps pretty.

Local Open Scope Z_scope.

(** ** JavaScript values *)

(** Modelled from the spec: the retry policy of [./retry] (missing from the
    sources at hand). Section 4.2: a linear policy has a fixed [count] and a
    fixed [interval]; an exponential one has [maxAttempts], [baseDelay],
    [maxDelay] and a [factor] defaulting to 2; either may carry a status-code
    allow-list. *)
Inductive RetryPolicy :=
| Linear (count interval : Z) (statusCodes : option (list Z))
| Exponential (maxAttempts baseDelay maxDelay : Z) (factor : option Z)
    (statusCodes : option (list Z)).

(** What the pipeline can tell about an object with [instanceof]. *)
Inductive kind :=
| KObject                      (* object literal, or any class not below *)
| KError                       (* Error and subclasses not below *)
| KDOMException
| KBetterFetchError
| KAbortSignal (id : nat)      (* the signal of controller [id] *)
| KRetry (p : RetryPolicy).    (* a retry policy object *)

(** Values: primitives, callables (opaque handles, called through the
    environment) and objects with their own enumerable properties. Numbers
    are the integers; arrays are objects with index keys. *)
#[warnings="-register-all"] Inductive value :=
| VUndefined
| VNull
| VBool (b : bool)
| VNum (n : Z)
| VStr (s : string)
| VFun (f : nat)
| VObj (k : kind) (props : gmap string value).

(** [v.k] and [v?.k]: every property read of the pipeline is either guarded
    by optional chaining or made on a value known to be an object. *)
Definition get (v : value) (k : string) : value :=
  match v with
  | VObj _ m => default VUndefined (m !! k)
  | _ => VUndefined
  end.

(** [k in v] *)
Definition has (v : value) (k : string) : bool :=
  match v with
  | VObj _ m => bool_decide (is_Some (m !! k))
  | _ => false
  end.

(** [v.k = x] *)
Definition set (v : value) (k : string) (x : value) : value :=
  match v with
  | VObj c m => VObj c (<[k := x]> m)
  | _ => v
  end.

(** Own enumerable properties copied by [{...v}]: those of an object, the
    indexed characters of a string, nothing for the other primitives. *)
Definition chars (s : string) : list (string * value) :=
  imap (fun i c => (pretty i, VStr (String c EmptyString))) (String.list_ascii_of_string s).

Definition spread (v : value) : gmap string value :=
  match v with
  | VObj _ m => m
  | VStr s => list_to_map (chars s)
  | _ => ∅
  end.

(** JavaScript truthiness. *)
Definition truthy (v : value) : bool :=
  match v with
  | VUndefined | VNull => false
  | VBool b => b
  | VNum n => negb (Z.eqb n 0)
  | VStr s => negb (String.eqb s EmptyString)
  | VFun _ | VObj _ _ => true
  end.

(** [v === null || v === undefined] *)
Definition is_nullish (v : value) : bool :=
  match v with
  | VUndefined | VNull => true
  | _ => false
  end.

(** [a ?? b] *)
Definition nullish (a b : value) : value :=
  if is_nullish a then b else a.

(** [typeof v === "object" && v !== null] *)
Definition is_object (v : value) : bool :=
  match v with
  | VObj _ _ => true
  | _ => false
  end.

(** [typeof v === "function"] *)
Definition is_function (v : value) : bool :=
  match v with
  | VFun _ => true
  | _ => false
  end.

(** [v === s] for a string literal [s] *)
Definition is_string (s : string) (v : value) : bool :=
  match v with
  | VStr s' => String.eqb s' s
  | _ => false
  end.

(** [v instanceof Error]: DOMException and BetterFetchError inherit from
    Error. *)
Definition instanceof_Error (v : value) : bool :=
  match v with
  | VObj (KError | KDOMException | KBetterFetchError) _ => true
  | _ => false
  end.

Definition instanceof_DOMException (v : value) : bool :=
  match v with
  | VObj KDOMException _ => true
  | _ => false
  end.

(** ** Responses and hook contexts *)

(** A transport response: what the pipeline reads synchronously. The body and
    [clone] are reached through the environment, keyed by [body]. *)
Record Response := {
  body : nat;
  ok : bool;
  status : Z;
  statusText : string
}.

Record ResponseContext := {
  rc_response : Response;
  rc_request : value
}.

Record SuccessContext := {
  sc_data : value;
  sc_response : Response;
  sc_request : value
}.

(** [ErrorContext & { responseText?: string }] *)
Record ErrorContext := {
  ec_response : option Response;
  ec_responseText : option string;
  ec_request : value;
  ec_error : value
}.

(** What an [onResponse] hook may return: nothing, a bare response, or an
    object holding one. *)
Inductive ResponseHookResult :=
| NoResponse
| BareResponse (r : Response)
| WrappedResponse (r : Response).

(** ** The trace of the pipeline's calls *)

Inductive Event :=
| EvInvoke (url : string) (options : value)       (* betterFetch entered *)
| EvOnRequest (context : value)                   (* onRequest(context) *)
| EvContextReplaced (res : value)                 (* context = res *)
| EvSetTimeout (controller : nat) (ms : value)    (* timer armed *)
| EvFetch (url : value) (init : value)            (* fetch(context.url, context) *)
| EvClearTimeout (controller : nat)               (* clearTimeout() *)
| EvClone (r : Response)                          (* response.clone() *)
| EvOnResponse (c : ResponseContext)
| EvText (r : Response)                           (* response.text() *)
| EvBody (responseType : string) (r : Response)   (* response[responseType]() *)
| EvParse (parser : value) (text : string)        (* parser(text) *)
| EvValidate (schema data : value)                (* parseStandardSchema *)
| EvOnSuccess (c : SuccessContext)
| EvOnError (c : ErrorContext)
| EvShouldAttemptRetry (attempt : value) (r : option Response) (retry : bool)
| EvOnRetry (c : ResponseContext)
| EvSleep (delay : value).                        (* the retry delay *)

(** ** Results *)

(** The result of a collaborator: it returns or throws. *)
Inductive Res (A : Type) :=
| Ret (a : A)
| Thr (e : value).
Arguments Ret {A} a.
Arguments Thr {A} e.

(** The result of the pipeline: a value, a thrown value, or the recursion
    budget of the model exhausted. *)
Inductive Outcome (A : Type) :=
| Val (a : A)
| Exn (e : value)
| OutOfFuel.
Arguments Val {A} a.
Arguments Exn {A} e.
Arguments OutOfFuel {A}.

Section Pipeline.

(** The state of the world outside the pipeline. *)
Context {W : Type}.

(** An effectful collaborator. *)
Definition Ext (A : Type) : Type := W -> Res A * W.

(** The aggregated hook lists; an entry may be undefined. An [onRequest]
    hook is handed the context object itself, not a copy: it may change it
    in place. What such a hook leaves is the value it returns together with
    the context object it was called on, as it is when the hook returns. The
    hooks that run after the transport call are handed the context as the
    [request] field of an object made for them; they are functions of that
    object. *)
Record FetchHooks := {
  onRequest : list (option (value -> Ext (value * value)));
  onResponse : list (option (ResponseContext -> Ext ResponseHookResult));
  onSuccess : list (option (SuccessContext -> Ext unit));
  onError : list (option (ErrorContext -> Ext unit));
  onRetry : list (option (ResponseContext -> Ext unit))
}.

Record RetryStrategy := {
  shouldAttemptRetry : value -> option Response -> Ext bool;
  getDelay : value -> value
}.

(** The collaborators of [fetch.ts]. *)
Record Env := {
  (* ./plugins *)
  initializePlugins : string -> value -> Ext (FetchHooks * string * gmap string value);
  (* ./retry *)
  createRetryStrategy : value -> Res RetryStrategy;
  (* ./url *)
  getURL : string -> gmap string value -> Res value;
  (* ./utils *)
  getFetch : gmap string value -> Res (value -> value -> Ext Response);
  getBody : gmap string value -> Res value;
  getHeaders : gmap string value -> Ext value;
  getMethod : string -> gmap string value -> Res value;
  detectResponseType : Response -> string;
  isJSONParsable : string -> bool;
  jsonParse : string -> Ext value;
  parseStandardSchema : value -> value -> Ext value;
  (* the platform *)
  call : value -> string -> Ext value;            (* f(text) for a value f *)
  response_text : Response -> Ext string;         (* response.text() *)
  response_body : string -> Response -> Ext value;(* response[type]() *)
  response_clone : Response -> Ext Response;      (* response.clone() *)
  js_String : value -> string                     (* String(v) *)
}.

(** ** The monad *)

Record State := {
  world : W;
  next_controller : nat      (* the next AbortController to be created *)
}.

Definition M (A : Type) : Type := State -> Outcome A * State * list Event.

Definition ret {A} (a : A) : M A := fun st => (Val a, st, []).

Definition throw {A} (e : value) : M A := fun st => (Exn e, st, []).

Definition out_of_fuel {A} : M A := fun st => (OutOfFuel, st, []).

Definition bind {A B} (m : M A) (k : A -> M B) : M B :=
  fun st =>
    match m st with
    | (Val a, st1, evs1) =>
        let '(o, st2, evs2) := k a st1 in (o, st2, evs1 ++ evs2)
    | (Exn e, st1, evs1) => (Exn e, st1, evs1)
    | (OutOfFuel, st1, evs1) => (OutOfFuel, st1, evs1)
    end.

Notation "'let*' x ':=' m 'in' k" := (bind m (fun x => k))
  (at level 10, x pattern, m at level 100, k at level 200).

Notation "m ';;;' k" := (bind m (fun _ => k))
  (at level 100, k at level 200, right associativity).

Definition emit (ev : Event) : M unit := fun st => (Val tt, st, [ev]).

(** [await f] for a collaborator acting on the world. *)
Definition ext {A} (f : Ext A) : M A :=
  fun st =>
    match f (world st) with
    | (Ret a, w) => (Val a, {| world := w; next_controller := next_controller st |}, [])
    | (Thr e, w) => (Exn e, {| world := w; next_controller := next_controller st |}, [])
    end.

Definition lift {A} (r : Res A) : M A :=
  match r with
  | Ret a => ret a
  | Thr e => throw e
  end.

(** [try { m } catch (e) { ... }] *)
Definition try {A} (m : M A) : M (Res A) :=
  fun st =>
    match m st with
    | (Val a, st1, evs) => (Val (Ret a), st1, evs)
    | (Exn e, st1, evs) => (Val (Thr e), st1, evs)
    | (OutOfFuel, st1, evs) => (OutOfFuel, st1, evs)
    end.

(** [new AbortController()] *)
Definition newAbortController : M nat :=
  fun st => (Val (next_controller st),
             {| world := world st; next_controller := S (next_controller st) |}, []).

(** [controller.signal] *)
Definition signal_of (controller : nat) : value := VObj (KAbortSignal controller) ∅.

Context (E : Env).

(** ** Helpers of the pipeline *)

(** [parser(text)] where [parser = p ?? jsonParse] *)
Definition parse (p : value) (text : string) : M value :=
  emit (EvParse p text);;;
  if is_nullish p then ext (jsonParse E text) else ext (call E p text).

Definition text (response : Response) : M string :=
  emit (EvText response);;; ext (response_text E response).

(** [c ? response.clone() : response] *)
Definition cloneIf (c : bool) (response : Response) : M Response :=
  if c then emit (EvClone response);;; ext (response_clone E response)
  else ret response.

(** Modelled from the spec: [getTimeout] of [./utils] (missing). Section 4.1
    step 5: if a timeout duration is configured, cancellation of the
    controller is scheduled after that duration. *)
Definition getTimeout (opts : gmap string value) (controller : nat) : M unit :=
  let ms := default VUndefined (opts !! "timeout") in
  if is_nullish ms then ret tt else emit (EvSetTimeout controller ms).

(** Modelled from the spec: the disarm function [getTimeout] returns
    (section 6, timeout wiring), called on every exit of the transport call. *)
Definition clearTimeout (controller : nat) : M unit :=
  emit (EvClearTimeout controller).

(** Modelled from the spec: [BetterFetchError] of [./error] (missing): a
    structured error carrying HTTP status, status text and a body. *)
Definition BetterFetchError (status statusText error : value) : value :=
  VObj KBetterFetchError
    (<["status" := status]> (<["statusText" := statusText]> {["error" := error]})).

(** [a + 1] once [a] is not nullish. *)
Definition plus_one (a : value) : value :=
  match a with
  | VNum n => VNum (n + 1)
  | VBool b => VNum (Z.b2z b + 1)
  | v => VStr (js_String E v +:+ "1")
  end.

(** [{ data, error }] *)
Definition result (data error : value) : value :=
  VObj KObject (<["data" := data]> {["error" := error]}).

(** ** handleError (lines 37-96) *)

(** lines 46-56 *)
Fixpoint run_onError (hs : list (option (ErrorContext -> Ext unit)))
    (cloneResponse : value) (errorContext : ErrorContext) : M unit :=
  match hs with
  | [] => ret tt
  | None :: hs' => run_onError hs' cloneResponse errorContext
  | Some onError :: hs' =>
      let* response :=
        match ec_response errorContext with
        | Some r => let* r' := cloneIf (truthy cloneResponse) r in ret (Some r')
        | None => ret None
        end in
      let c := {| ec_response := response;
                  ec_responseText := ec_responseText errorContext;
                  ec_request := ec_request errorContext;
                  ec_error := ec_error errorContext |} in
      emit (EvOnError c);;;
      ext (onError c);;;
      run_onError hs' cloneResponse errorContext
  end.

(** lines 67-74 *)
Fixpoint run_onRetry (hs : list (option (ResponseContext -> Ext unit)))
    (errorContext : ErrorContext) : M unit :=
  match hs with
  | [] => ret tt
  | Some onRetry :: hs' =>
      match ec_response errorContext with
      | Some response =>
          let c := {| rc_response := response; rc_request := ec_request errorContext |} in
          emit (EvOnRetry c);;;
          ext (onRetry c);;;
          run_onRetry hs' errorContext
      | None => run_onRetry hs' errorContext
      end
  | None :: hs' => run_onRetry hs' errorContext
  end.

Definition handleError (errorContext : ErrorContext) (hooks : FetchHooks)
    (options : value) (url : string) (fetchFn : string -> value -> M value)
    (cloneResponse : value) (throwError : value) : M value :=
  run_onError (onError hooks) cloneResponse errorContext;;;
  let giveUp : M value :=
    if truthy (get options "throw") then
      throw (BetterFetchError
               (get (ec_error errorContext) "status")
               (get (ec_error errorContext) "statusText")
               (nullish throwError (ec_error errorContext)))
    else
      ret (result VNull (ec_error errorContext)) in
  if truthy (get options "retry") then
    let* retryStrategy := lift (createRetryStrategy E (get options "retry")) in
    let _retryAttempt := nullish (get options "retryAttempt") (VNum 0) in
    let* retry := ext (shouldAttemptRetry retryStrategy _retryAttempt (ec_response errorContext)) in
    emit (EvShouldAttemptRetry _retryAttempt (ec_response errorContext) retry);;;
    if retry then
      run_onRetry (onRetry hooks) errorContext;;;
      let delay := getDelay retryStrategy _retryAttempt in
      emit (EvSleep delay);;;
      fetchFn url (VObj KObject (<["retryAttempt" := plus_one _retryAttempt]> (spread options)))
    else giveUp
  else giveUp.

(** ** betterFetch (lines 98-292) *)

(** lines 137-144: [context] is one object, handed to each hook and then
    to the transport; a hook that returns no object leaves [context] bound to
    the object it was called on, with the changes it made to it. *)
Fixpoint run_onRequest (hs : list (option (value -> Ext (value * value))))
    (context : value) : M value :=
  match hs with
  | [] => ret context
  | None :: hs' => run_onRequest hs' context
  | Some onRequest :: hs' =>
      emit (EvOnRequest context);;;
      let* (res, context) := ext (onRequest context) in
      if is_object res then
        emit (EvContextReplaced res);;;
        run_onRequest hs' res
      else run_onRequest hs' context
  end.

(** lines 145-152 *)
Definition inferDuplex (options context : value) : value :=
  if (has context "pipeTo" && is_function (get context "pipeTo"))
     || is_function (get (get options "body") "pipe")
  then
    if negb (has context "duplex") then set context "duplex" (VStr "half")
    else context
  else context.

(** lines 126-133 *)
Definition initialContext (opts : gmap string value)
    (_url headers body method signal : value) : value :=
  VObj KObject
    (<["signal" := signal]> (<["method" := method]> (<["body" := body]>
      (<["headers" := headers]> (<["url" := _url]> opts))))).

(** What lines 114-154 leave for the rest of the function. *)
Record Prepared := {
  p_hooks : FetchHooks;
  p_opts : gmap string value;
  p_fetch : value -> value -> Ext Response;
  p_controller : nat;
  p_context : value
}.

(** lines 114-154: from plugin initialisation to the armed timeout. *)
Definition prepare (url : string) (options : value) : M Prepared :=
  let* (hooks, __url, opts) := ext (initializePlugins E url options) in
  let* fetch := lift (getFetch E opts) in
  let* controller := newAbortController in
  let signal := nullish (default VUndefined (opts !! "signal")) (signal_of controller) in
  let* _url := lift (getURL E __url opts) in
  let* body := lift (getBody E opts) in
  let* headers := ext (getHeaders E opts) in
  let* method := lift (getMethod E __url opts) in
  let context := initialContext opts _url headers body method signal in
  let* context := run_onRequest (onRequest hooks) context in
  let context := inferDuplex options context in
  getTimeout opts controller;;;
  ret {| p_hooks := hooks; p_opts := opts; p_fetch := fetch;
         p_controller := controller; p_context := context |}.

(** lines 196-210 *)
Fixpoint run_onResponse (hs : list (option (ResponseContext -> Ext ResponseHookResult)))
    (cloneResponse : value) (context : value) (response : Response) : M Response :=
  match hs with
  | [] => ret response
  | None :: hs' => run_onResponse hs' cloneResponse context response
  | Some onResponse :: hs' =>
      let* r' := cloneIf (truthy cloneResponse) response in
      let c := {| rc_response := r'; rc_request := context |} in
      emit (EvOnResponse c);;;
      let* r := ext (onResponse c) in
      match r with
      | BareResponse r => run_onResponse hs' cloneResponse context r
      | WrappedResponse r => run_onResponse hs' cloneResponse context r
      | NoResponse => run_onResponse hs' cloneResponse context response
      end
  end.

(** lines 249-258 *)
Fixpoint run_onSuccess (hs : list (option (SuccessContext -> Ext unit)))
    (cloneResponse : value) (data : value) (context : value) (response : Response)
    : M unit :=
  match hs with
  | [] => ret tt
  | None :: hs' => run_onSuccess hs' cloneResponse data context response
  | Some onSuccess :: hs' =>
      let* r' := cloneIf (truthy cloneResponse) response in
      let c := {| sc_data := data; sc_response := r'; sc_request := context |} in
      emit (EvOnSuccess c);;;
      ext (onSuccess c);;;
      run_onSuccess hs' cloneResponse data context response
  end.

(** lines 168-174 *)
Definition networkError (fetchError : value) : value :=
  VObj KObject
    (<["status" := VNum 0]> (<["statusText" := VStr "Network Error"]>
      (<["message" := if instanceof_Error fetchError then get fetchError "message"
                      else VStr (js_String E fetchError)]>
        {["cause" := fetchError]}))).

(** lines 162-163 *)
Definition isAbortError (fetchError : value) : bool :=
  instanceof_DOMException fetchError && is_string "AbortError" (get fetchError "name").

(** lines 223-235 *)
Definition decode (context : value) (response : Response) : M value :=
  let responseType := detectResponseType E response in
  if String.eqb responseType "json" || String.eqb responseType "text" then
    let* text := text response in
    parse (get context "jsonParser") text
  else
    emit (EvBody responseType response);;;
    ext (response_body E responseType response).

(** lines 240-247 *)
Definition validate (context : value) (data : value) : M value :=
  if truthy (get context "output") then
    if truthy (get context "output") && negb (truthy (get context "disableValidation")) then
      emit (EvValidate (get context "output") data);;;
      ext (parseStandardSchema E (get context "output") data)
    else ret data
  else ret data.

Fixpoint betterFetch (fuel : nat) (url : string) (options : value) : M value :=
  match fuel with
  | O => out_of_fuel
  | S fuel' =>
      emit (EvInvoke url options);;;
      let* p := prepare url options in
      let hooks := p_hooks p in
      let context := p_context p in
      let* r := try (emit (EvFetch (get context "url") context);;;
                     ext (p_fetch p (get context "url") context)) in
      match r with
      | Thr fetchError =>
          clearTimeout (p_controller p);;;
          if isAbortError fetchError then throw fetchError
          else
            handleError
              {| ec_response := None; ec_responseText := None;
                 ec_request := context; ec_error := networkError fetchError |}
              hooks options url (betterFetch fuel') VUndefined VUndefined
      | Ret response =>
          clearTimeout (p_controller p);;;
          let cloneResponse := get (get options "hookOptions") "cloneResponse" in
          let* response := run_onResponse (onResponse hooks) cloneResponse context response in
          if ok response then
            let hasBody := negb (is_string "HEAD" (get context "method")) in
            if negb hasBody then ret (result (VStr EmptyString) VNull)
            else
              let* data := decode context response in
              let* data := validate context data in
              run_onSuccess (onSuccess hooks) cloneResponse data context response;;;
              if truthy (get options "throw") then ret data
              else ret (result data VNull)
          else
            let* responseText := text response in
            let isJSONResponse := isJSONParsable E responseText in
            let* errorObject :=
              if isJSONResponse then parse (get options "jsonParser") responseText
              else ret VNull in
            handleError
              {| ec_response := Some response; ec_responseText := Some responseText;
                 ec_request := context;
                 ec_error :=
                   VObj KObject
                     (<["statusText" := VStr (statusText response)]>
                       (<["status" := VNum (status response)]> (spread errorObject))) |}
              hooks options url (betterFetch fuel') cloneResponse
              (if isJSONResponse then errorObject else VStr responseText)
      end
  end.

(** ** The retry strategy of the specification *)

(** Modelled from the spec: [createRetryStrategy] of [./retry] (missing).
    Section 4.2: [shouldAttemptRetry(attempt, response)] is true while
    [attempt] is below the configured number of attempts and either no
    status-code allow-list is configured or the status of the response is in
    it; an allow-list only applies when a response exists. The delay is the
    constant [interval], or [min(baseDelay * factor^attempt, maxDelay)]. A
    plain number is a linear policy with that many attempts and a zero
    interval. [attempt] is a number; compared to anything else it behaves as
    NaN does. *)
Definition below (attempt : value) (n : Z) : bool :=
  match attempt with
  | VNum a => a <? n
  | _ => false
  end.

(** Modelled from the spec: the status condition of section 4.2; an
    allow-list does not block a retry when there is no response. *)
Definition statusAllowed (statusCodes : option (list Z)) (response : option Response) : bool :=
  match statusCodes, response with
  | Some codes, Some r => existsb (Z.eqb (status r)) codes
  | _, _ => true
  end.

(** Modelled from the spec: the two strategies of section 4.2. *)
Definition specRetryStrategy (p : RetryPolicy) : RetryStrategy :=
  match p with
  | Linear count interval statusCodes =>
      {| shouldAttemptRetry := fun attempt response w =>
           (Ret (below attempt count && statusAllowed statusCodes response), w);
         getDelay := fun _ => VNum interval |}
  | Exponential maxAttempts baseDelay maxDelay factor statusCodes =>
      {| shouldAttemptRetry := fun attempt response w =>
           (Ret (below attempt maxAttempts && statusAllowed statusCodes response), w);
         getDelay := fun attempt =>
           match attempt with
           | VNum a => VNum (Z.min (baseDelay * default 2 factor ^ a) maxDelay)
           | _ => VUndefined
           end |}
  end.

(** Modelled from the spec: the retry configurations of section 4.2, a
    policy or a plain number. *)
Definition specRetryPolicy (retry : value) : option RetryPolicy :=
  match retry with
  | VNum n => Some (Linear n 0 None)
  | VObj (KRetry p) _ => Some p
  | _ => None
  end.

(** An environment whose retry strategy is the one of the specification. *)
Definition retry_as_specified : Prop :=
  forall retry p, specRetryPolicy retry = Some p ->
    createRetryStrategy E retry = Ret (specRetryStrategy p).

(** ** Describing runs *)

(** The run [r], after the events [evs]. *)
Definition prefixed {A} (evs : list Event) (r : Outcome A * State * list Event)
    : Outcome A * State * list Event :=
  let '(o, st, evs') := r in (o, st, evs ++ evs').

Definition with_world (st : State) (w : W) : State :=
  {| world := w; next_controller := next_controller st |}.

(** The two paths of [betterFetch] into [handleError]: the transport threw
    something that is not an abort (lines 159-187), or the response left by
    the [onResponse] hooks is not OK (lines 269-291). [routed url options st
    errorContext hooks cloneResponse throwError st' evs]: the call of
    [betterFetch url options] from state [st] reaches, in state [st'] and
    after the events [evs], the call of [handleError] with these arguments. *)
Inductive routed (url : string) (options : value) (st : State)
    : ErrorContext -> FetchHooks -> value -> value -> State -> list Event -> Prop :=
| routed_network p st1 evs1 fetchError w2 :
    prepare url options st = (Val p, st1, evs1) ->
    p_fetch p (get (p_context p) "url") (p_context p) (world st1) = (Thr fetchError, w2) ->
    isAbortError fetchError = false ->
    routed url options st
      {| ec_response := None; ec_responseText := None;
         ec_request := p_context p; ec_error := networkError fetchError |}
      (p_hooks p) VUndefined VUndefined
      (with_world st1 w2)
      (EvInvoke url options :: evs1 ++
         [EvFetch (get (p_context p) "url") (p_context p); EvClearTimeout (p_controller p)])
| routed_http p st1 evs1 r0 w2 response st3 evs3 responseText w4 errorObject st5 evs5 :
    prepare url options st = (Val p, st1, evs1) ->
    p_fetch p (get (p_context p) "url") (p_context p) (world st1) = (Ret r0, w2) ->
    run_onResponse (onResponse (p_hooks p)) (get (get options "hookOptions") "cloneResponse")
      (p_context p) r0 (with_world st1 w2) = (Val response, st3, evs3) ->
    ok response = false ->
    response_text E response (world st3) = (Ret responseText, w4) ->
    (if isJSONParsable E responseText then parse (get options "jsonParser") responseText
     else ret VNull) (with_world st3 w4) = (Val errorObject, st5, evs5) ->
    routed url options st
      {| ec_response := Some response; ec_responseText := Some responseText;
         ec_request := p_context p;
         ec_error :=
           VObj KObject
             (<["statusText" := VStr (statusText response)]>
               (<["status" := VNum (status response)]> (spread errorObject))) |}
      (p_hooks p) (get (get options "hookOptions") "cloneResponse")
      (if isJSONParsable E responseText then errorObject else VStr responseText)
      st5
      (EvInvoke url options :: evs1 ++
         [EvFetch (get (p_context p) "url") (p_context p); EvClearTimeout (p_controller p)] ++
         evs3 ++ [EvText response] ++ evs5).

(** The context line 141 leaves after an [onRequest] hook: the object the
    hook returned, or else the object it was called on, as the hook left
    it. *)
Definition handed_on (r : value * value) : value :=
  if is_object r.1 then r.1 else r.2.

(** An [onRequest] hook that leaves the context it is called on: it hands
    on that context, neither replaced nor changed in place. *)
Definition leaves (h : value -> Ext (value * value)) : Prop :=
  forall context w r w', h context w = (Ret r, w') -> handed_on r = context.


(** Lines 114-133: the call of [betterFetch url options] from the state
    [st] reaches the [onRequest] loop, in the state [st'], with the hooks,
    the resolved options, the transport and the controller of the attempt,
    and its first Request Context. *)
Inductive built (url : string) (options : value) (st : State)
    : FetchHooks -> gmap string value -> (value -> value -> Ext Response) -> nat ->
      value -> State -> Prop :=
| built_intro hooks __url opts w1 fetch _url body headers w2 method :
    initializePlugins E url options (world st) = (Ret (hooks, __url, opts), w1) ->
    getFetch E opts = Ret fetch ->
    getURL E __url opts = Ret _url ->
    getBody E opts = Ret body ->
    getHeaders E opts w1 = (Ret headers, w2) ->
    getMethod E __url opts = Ret method ->
    built url options st hooks opts fetch (next_controller st)
      (initialContext opts _url headers body method
         (nullish (default VUndefined (opts !! "signal")) (signal_of (next_controller st))))
      {| world := w2; next_controller := S (next_controller st) |}.

(** Hooks that return: the [onError] and [onRetry] loops of [handleError]
    complete whatever the error context and the state. *)
Definition error_hooks_return (hooks : FetchHooks) : Prop :=
  forall cloneResponse errorContext st,
    (exists st' evs, run_onError (onError hooks) cloneResponse errorContext st = (Val tt, st', evs))
    /\ (exists st' evs, run_onRetry (onRetry hooks) errorContext st = (Val tt, st', evs)).

(** What the error-handling routine ends with when it does not retry
    (lines 84-95). *)
Definition gives_up (errorContext : ErrorContext) (options throwError : value)
    : Outcome value :=
  if truthy (get options "throw") then
    Exn (BetterFetchError (get (ec_error errorContext) "status")
           (get (ec_error errorContext) "statusText")
           (nullish throwError (ec_error errorContext)))
  else Val (result VNull (ec_error errorContext)).

(** The options of attempt [k] of a call made with [options]: the caller's
    options, with the attempt counter set from the first retry on. *)
Definition attempt_options (options : value) (k : nat) : value :=
  match k with
  | O => options
  | S _ => VObj KObject (<["retryAttempt" := VNum (Z.of_nat k)]> (spread options))
  end.

(** A request that fails at each of its attempts up to attempt [N]: each one
    is routed to the error-handling routine, with hooks that return. *)
Definition always_fails (url : string) (options : value) (N : nat) : Prop :=
  forall k st, (k <= N)%nat ->
    exists errorContext hooks cloneResponse throwError st' evs,
      routed url (attempt_options options k) st
        errorContext hooks cloneResponse throwError st' evs
      /\ error_hooks_return hooks.

(** The computation [m] emits events of kind [P] only. *)
Definition emits_only {A} (P : Event -> bool) (m : M A) : Prop :=
  forall st o st' evs, m st = (o, st', evs) -> forallb P evs = true.


End Pipeline.

Arguments Env : clear implicits.
Arguments FetchHooks : clear implicits.
Arguments State : clear implicits.

(** ** Reading a trace *)

Definition is_invoke (ev : Event) : bool :=
  match ev with EvInvoke _ _ => true | _ => false end.

Definition is_fetch (ev : Event) : bool :=
  match ev with EvFetch _ _ => true | _ => false end.

(** Reading, decoding or validating a response body. *)
Definition is_body_use (ev : Event) : bool :=
  match ev with
  | EvText _ | EvBody _ _ | EvParse _ _ | EvValidate _ _ => true
  | _ => false
  end.

(** The steps of the error-handling routine. *)
Definition is_error_handling (ev : Event) : bool :=
  match ev with
  | EvOnError _ | EvShouldAttemptRetry _ _ _ | EvOnRetry _ | EvSleep _ => true
  | _ => false
  end.

Definition is_text (ev : Event) : bool :=
  match ev with EvText _ => true | _ => false end.

Definition is_decision (ev : Event) : bool :=
  match ev with EvShouldAttemptRetry _ _ _ => true | _ => false end.

(** The events of lines 114-154. *)
Definition is_request_phase (ev : Event) : bool :=
  match ev with
  | EvOnRequest _ | EvContextReplaced _ | EvSetTimeout _ _ => true
  | _ => false
  end.

(** The events of the [onResponse] loop. *)
Definition is_response_hook (ev : Event) : bool :=
  match ev with EvClone _ | EvOnResponse _ => true | _ => false end.

Definition is_parse (ev : Event) : bool :=
  match ev with EvParse _ _ => true | _ => false end.

(** The events of the [onError] and [onRetry] loops. *)
Definition is_error_hook (ev : Event) : bool :=
  match ev with EvClone _ | EvOnError _ | EvOnRetry _ => true | _ => false end.

(** Number of transport invocations. *)
Definition transport_calls (evs : list Event) : nat :=
  length (List.filter is_fetch evs).

(** The options of the successive invocations of the pipeline. *)
Fixpoint invocations (evs : list Event) : list value :=
  match evs with
  | [] => []
  | EvInvoke _ options :: evs' => options :: invocations evs'
  | _ :: evs' => invocations evs'
  end.

(** The retry decisions evaluated, with their attempt index and outcome. *)
Fixpoint retry_decisions (evs : list Event) : list (value * bool) :=
  match evs with
  | [] => []
  | EvShouldAttemptRetry attempt _ retry :: evs' => (attempt, retry) :: retry_decisions evs'
  | _ :: evs' => retry_decisions evs'
  end.

(** The events of the [onRequest] loop. *)
Definition is_onRequest_event (ev : Event) : bool :=
  match ev with EvOnRequest _ | EvContextReplaced _ => true | _ => false end.

(** Events that are neither a transport call, nor an invocation of the
    pipeline, nor a retry decision. *)
Definition local_event (ev : Event) : bool :=
  negb (is_fetch ev || is_invoke ev || is_decision ev).



(** ** Concrete environments

    Small instances of [Env] over a world without state, used to run the
    pipeline on concrete calls. *)

Module Demo.

Definition quote : string := String (Ascii.ascii_of_nat 34) EmptyString.

(** The text [{"message":"not found"}]. *)
Definition notFoundText : string :=
  "{" +:+ quote +:+ "message" +:+ quote +:+ ":" +:+ quote +:+ "not found" +:+ quote +:+ "}".

Definition noHooks : FetchHooks unit :=
  {| onRequest := []; onResponse := []; onSuccess := []; onError := []; onRetry := [] |}.

Definition connectionRefused : value :=
  VObj KError (<["name" := VStr "TypeError"]> {["message" := VStr "fetch failed"]}).

Definition abortError : value :=
  VObj KDOMException
    (<["name" := VStr "AbortError"]> {["message" := VStr "This operation was aborted"]}).

Definition invalidOutput : value :=
  VObj KError {["message" := VStr "invalid output"]}.

(** An environment with the given hooks, transport, response texts and
    plugin contribution to the options. The schema validator rejects
    [null]; the JSON parser knows two texts. *)
Definition env (hooks : FetchHooks unit)
    (fetch : value -> value -> unit -> Res Response * unit)
    (texts : nat -> string)
    (plugin : gmap string value -> gmap string value) : Env unit :=
  {| initializePlugins := fun url options w => (Ret (hooks, url, plugin (spread options)), w);
     createRetryStrategy := fun retry =>
       match specRetryPolicy retry with
       | Some p => Ret (specRetryStrategy p)
       | None => Thr (VObj KError ∅)
       end;
     getURL := fun url _ => Ret (VStr url);
     getFetch := fun _ => Ret fetch;
     getBody := fun opts => Ret (default VUndefined (opts !! "body"));
     getHeaders := fun _ w => (Ret (VObj KObject ∅), w);
     getMethod := fun _ opts =>
       Ret (match opts !! "method", opts !! "body" with
            | Some m, _ => m
            | None, Some _ => VStr "POST"
            | None, None => VStr "GET"
            end);
     detectResponseType := fun _ => "json";
     isJSONParsable := fun text =>
       String.eqb text notFoundText || String.eqb text "null";
     jsonParse := fun text w =>
       (Ret (if String.eqb text notFoundText then VObj KObject {["message" := VStr "not found"]}
             else if String.eqb text "null" then VNull
             else VStr text), w);
     parseStandardSchema := fun _ data w =>
       (match data with VNull => Thr invalidOutput | _ => Ret data end, w);
     call := fun _ text w => (Ret (VStr text), w);
     response_text := fun r w => (Ret (texts (body r)), w);
     response_body := fun _ r w => (Ret (VStr (texts (body r))), w);
     response_clone := fun r w => (Ret r, w);
     js_String := fun _ => "[object Object]" |}.

Definition st0 : State unit := {| world := tt; next_controller := 0 |}.

Definition failing (e : value) : value -> value -> unit -> Res Response * unit :=
  fun _ _ w => (Thr e, w).

Definition responding (r : Response) : value -> value -> unit -> Res Response * unit :=
  fun _ _ w => (Ret r, w).

Definition notFound : Response :=
  {| body := 0; ok := false; status := 404; statusText := "Not Found" |}.

Definition serverError : Response :=
  {| body := 1; ok := false; status := 500; statusText := "Internal Server Error" |}.

Definition okResponse : Response :=
  {| body := 2; ok := true; status := 200; statusText := "OK" |}.

Definition texts (b : nat) : string :=
  match b with
  | 0%nat => notFoundText
  | 1%nat => "oops"
  | _ => "null"
  end.

(** [{ k1: v1, ... }] *)
Definition obj (l : list (string * value)) : value := VObj KObject (list_to_map l).

(** The transport fails: connection refused, or aborted. *)
Definition E_refused : Env unit := env noHooks (failing connectionRefused) texts id.
Definition E_aborted : Env unit := env noHooks (failing abortError) texts id.

(** The transport answers 200, 404 with a JSON body, 500 with a text body. *)
Definition E_ok : Env unit := env noHooks (responding okResponse) texts id.
Definition E_notFound : Env unit := env noHooks (responding notFound) texts id.
Definition E_serverError : Env unit := env noHooks (responding serverError) texts id.

(** A plugin contributes a retry policy and the throw flag. *)
Definition E_plugin : Env unit :=
  env noHooks (failing connectionRefused) texts
    (fun opts => <["retry" := VNum 3]> (<["throw" := VBool true]> opts)).

(** [onRequest] hooks: one returns a replacement for the context, one
    returns nothing and leaves the context as it is, one returns another
    replacement, one sets a field of the context in place and returns
    nothing, one sets the signal of the context in place. *)
Definition replacement : value := obj [("url", VStr "/replaced")].

Definition otherReplacement : value := obj [("method", VStr "DELETE")].




Definition returnsReplacement : value -> unit -> Res (value * value) * unit :=
  fun c w => (Ret (replacement, c), w).

Definition returnsNothing : value -> unit -> Res (value * value) * unit :=
  fun c w => (Ret (VUndefined, c), w).

Definition returnsOther : value -> unit -> Res (value * value) * unit :=
  fun c w => (Ret (otherReplacement, c), w).

Definition setsCredentials : value -> unit -> Res (value * value) * unit :=
  fun c w => (Ret (VUndefined, set c "credentials" (VStr "include")), w).


Definition requestHooks (hs : list (value -> unit -> Res (value * value) * unit))
    : FetchHooks unit :=
  {| onRequest := map Some hs;
     onResponse := []; onSuccess := []; onError := []; onRetry := [] |}.

Definition E_replacing : Env unit :=
  env (requestHooks [returnsReplacement; returnsNothing]) (responding okResponse) texts id.

Definition E_replacingTwice : Env unit :=
  env (requestHooks [returnsReplacement; returnsOther]) (responding okResponse) texts id.

Definition E_replacingThenChanging : Env unit :=
  env (requestHooks [returnsReplacement; setsCredentials]) (responding okResponse) texts id.



(** What the transport throws when the signal it holds is aborted is the
    reason of the abort: the value given to [controller.abort(reason)], a
    DOMException named AbortError when no reason is given, and a
    DOMException named TimeoutError for a signal made by
    [AbortSignal.timeout]. *)
Definition abortException (reason : option value) : value :=
  default abortError reason.

Definition timeoutError : value :=
  VObj KDOMException
    (<["name" := VStr "TimeoutError"]>
       {["message" := VStr "The operation was aborted due to timeout"]}).

Definition cancelled : value :=
  VObj KError (<["name" := VStr "Error"]> {["message" := VStr "cancelled by the user"]}).

(** One [onError] hook, which returns. *)
Definition errorWatched : FetchHooks unit :=
  {| onRequest := []; onResponse := []; onSuccess := [];
     onError := [Some (fun _ w => (Ret tt, w))]; onRetry := [] |}.

(** The signal of the call is aborted, by a timeout signal or with a reason
    of the caller's. *)
Definition E_timedOut : Env unit := env errorWatched (failing timeoutError) texts id.
Definition E_cancelled : Env unit :=
  env errorWatched (failing (abortException (Some cancelled))) texts id.

End Demo.

(** ** The shape of a run *)

Definition is_sleep (ev : Event) : bool :=
  match ev with EvSleep _ => true | _ => false end.

Definition is_clear (ev : Event) : bool :=
  match ev with EvClearTimeout _ => true | _ => false end.

Definition is_onError (ev : Event) : bool :=
  match ev with EvOnError _ => true | _ => false end.

Definition is_onRetry (ev : Event) : bool :=
  match ev with EvOnRetry _ => true | _ => false end.

Definition is_onSuccess (ev : Event) : bool :=
  match ev with EvOnSuccess _ => true | _ => false end.

(** The events of lines 196-272: response hooks, body and success hooks. *)
Definition is_response_event (ev : Event) : bool :=
  match ev with
  | EvClone _ | EvOnResponse _ | EvText _ | EvBody _ _ | EvParse _ _ | EvValidate _ _
  | EvOnSuccess _ => true
  | _ => false
  end.

(** The events of the error-handling routine before the retry delay. *)
Definition is_handler_event (ev : Event) : bool :=
  is_error_hook ev || is_decision ev.

(** The events of an attempt after its transport call has settled and its
    timer is cleared, the retry delay apart. *)
Definition is_post_event (ev : Event) : bool :=
  is_response_event ev || is_handler_event ev.

(** The events of one attempt, from after the invocation to the end of the
    attempt or to its retry delay: either the attempt ends before the
    transport is called, during the [onRequest] hooks or earlier, or the
    hooks are followed by the arming of the timer when there is one, the
    transport call, the clearing of the timer of the attempt's controller,
    and the events that follow. *)
Inductive attempt_trace : list Event -> Prop :=
| attempt_unsent evsH :
    forallb is_onRequest_event evsH = true ->
    attempt_trace evsH
| attempt_sent evsH evsT u c k evsQ :
    forallb is_onRequest_event evsH = true ->
    evsT = [] \/ (exists ms, evsT = [EvSetTimeout k ms]) ->
    forallb is_post_event evsQ = true ->
    attempt_trace (evsH ++ evsT ++ EvFetch u c :: EvClearTimeout k :: evsQ).

(** No timer is left armed: an armed timer is followed by the transport call
    and by the clearing of the timer of the same controller, and every
    transport call is followed by the clearing of a timer. *)
Fixpoint timers_cleared (evs : list Event) : Prop :=
  match evs with
  | [] => True
  | EvSetTimeout c _ :: evs' =>
      match evs' with
      | EvFetch _ _ :: EvClearTimeout c' :: _ => c' = c
      | _ => False
      end /\ timers_cleared evs'
  | EvFetch _ _ :: evs' =>
      match evs' with
      | EvClearTimeout _ :: _ => True
      | _ => False
      end /\ timers_cleared evs'
  | _ :: evs' => timers_cleared evs'
  end.

(** The trace cut before each invocation of the pipeline: the events of the
    successive invocations, each with the invocation it starts with. *)
Definition starts_with_invoke (evs : list Event) : bool :=
  match evs with
  | EvInvoke _ _ :: _ => true
  | _ => false
  end.

Fixpoint attempts (evs : list Event) : list (list Event) :=
  match evs with
  | [] => []
  | ev :: evs' =>
      if starts_with_invoke evs' then [ev] :: attempts evs'
      else
        match attempts evs' with
        | seg :: segs => (ev :: seg) :: segs
        | [] => [[ev]]
        end
  end.

(** Every retry delay is followed at once by an invocation of the pipeline,
    unless the trace stops there, and nothing but a retry delay is followed
    by an invocation. *)
Fixpoint delays_reinvoke (evs : list Event) : Prop :=
  match evs with
  | [] => True
  | EvSleep _ :: evs' =>
      match evs' with
      | [] | EvInvoke _ _ :: _ => delays_reinvoke evs'
      | _ => False
      end
  | _ :: evs' =>
      match evs' with
      | EvInvoke _ _ :: _ => False
      | _ => delays_reinvoke evs'
      end
  end.

(** The invocations of the pipeline, with their url. *)
Fixpoint calls (evs : list Event) : list (string * value) :=
  match evs with
  | [] => []
  | EvInvoke url options :: evs' => (url, options) :: calls evs'
  | _ :: evs' => calls evs'
  end.

Section Runs.

Context {W : Type} (E : Env W).

(** The options of the invocation that follows a retry (lines 78-79). *)
Definition retry_options (options : value) : value :=
  VObj KObject
    (<["retryAttempt" := plus_one E (nullish (get options "retryAttempt") (VNum 0))]>
       (spread options)).

(** The successive invocations of a call are made on the same url, each one
    on the retry options of the one before. *)
Fixpoint chained (url : string) (options : value) (l : list (string * value)) : Prop :=
  match l with
  | [] => True
  | c :: l' => c = (url, options) /\ chained url (retry_options options) l'
  end.

(** The computation [m] emits events of kind [P] only and does not use the
    recursion budget. *)
Definition runs {A} (P : Event -> bool) (m : @M W A) : Prop :=
  forall st o st' evs, m st = (o, st', evs) -> forallb P evs = true /\ o <> OutOfFuel.

End Runs.

Definition is_clone (ev : Event) : bool :=
  match ev with EvClone _ => true | _ => false end.

Definition is_validate (ev : Event) : bool :=
  match ev with EvValidate _ _ => true | _ => false end.

(** The events of reading and decoding a body, validation apart. *)
Definition is_decode_event (ev : Event) : bool :=
  match ev with EvText _ | EvBody _ _ | EvParse _ _ => true | _ => false end.

(** The events of the [onSuccess] loop. *)
Definition is_success_hook (ev : Event) : bool :=
  match ev with EvClone _ | EvOnSuccess _ => true | _ => false end.

(** The hooks of a list that are defined. *)
Definition defined {A} (hs : list (option A)) : list A := omap id hs.

(** The events of one invocation: the invocation itself, then no other, at
    most one transport call, as many timer clearings as transport calls, and
    at most one retry delay. *)
Definition one_invocation (seg : list Event) : Prop :=
  exists url options evs,
    seg = EvInvoke url options :: evs
    /\ calls evs = []
    /\ (transport_calls evs <= 1)%nat
    /\ length (List.filter is_clear evs) = transport_calls evs
    /\ (length (List.filter is_sleep evs) <= 1)%nat.

(** ** More concrete environments *)

Module Demo2.
Import Demo.

Definition hookError : value := VObj KError {["message" := VStr "hook failed"]}.

Definition bodyUsed : value := VObj KError {["message" := VStr "body already read"]}.

(** Hooks that return nothing, with an undefined entry among the [onError]
    hooks. *)
Definition quietHooks : FetchHooks unit :=
  {| onRequest := [];
     onResponse := [];
     onSuccess := [Some (fun _ w => (Ret tt, w))];
     onError := [Some (fun _ w => (Ret tt, w)); None; Some (fun _ w => (Ret tt, w))];
     onRetry := [Some (fun _ w => (Ret tt, w))] |}.

(** A 200 response with a JSON body. *)
Definition okJson : Response :=
  {| body := 0; ok := true; status := 200; statusText := "OK" |}.

Definition E_hooked_refused : Env unit := env quietHooks (failing connectionRefused) texts id.
Definition E_hooked_ok : Env unit := env quietHooks (responding okJson) texts id.

(** An [onRequest] hook throws. *)
Definition E_requestHookFails : Env unit :=
  env {| onRequest := [Some (fun _ w => (Thr hookError, w))];
         onResponse := []; onSuccess := []; onError := []; onRetry := [] |}
    (responding okResponse) texts id.

(** An [onResponse] hook throws. *)
Definition E_responseHookFails : Env unit :=
  env {| onRequest := [];
         onResponse := [Some (fun _ w => (Thr hookError, w))];
         onSuccess := []; onError := []; onRetry := [] |}
    (responding notFound) texts id.

(** The first [onError] hook throws. *)
Definition E_errorHookFails : Env unit :=
  env {| onRequest := []; onResponse := []; onSuccess := [];
         onError := [Some (fun _ w => (Thr hookError, w)); Some (fun _ w => (Ret tt, w))];
         onRetry := [] |}
    (failing connectionRefused) texts id.

(** A world that is a journal: each [onError] hook writes its name in it,
    most recent first. *)
Definition writes (name : string) : ErrorContext -> list string -> Res unit * list string :=
  fun _ journal => (Ret tt, name :: journal).

Definition E_journal : Env (list string) :=
  {| initializePlugins := fun url options w =>
       (Ret ({| onRequest := []; onResponse := []; onSuccess := [];
                onError := [Some (writes "first"); None; Some (writes "second")];
                onRetry := [] |}, url, spread options), w);
     createRetryStrategy := fun retry =>
       match specRetryPolicy retry with
       | Some p => Ret (specRetryStrategy p)
       | None => Thr (VObj KError ∅)
       end;
     getURL := fun url _ => Ret (VStr url);
     getFetch := fun _ => Ret (fun _ _ w => (Thr connectionRefused, w));
     getBody := fun opts => Ret (default VUndefined (opts !! "body"));
     getHeaders := fun _ w => (Ret (VObj KObject ∅), w);
     getMethod := fun _ _ => Ret (VStr "GET");
     detectResponseType := fun _ => "json";
     isJSONParsable := fun _ => false;
     jsonParse := fun text w => (Ret (VStr text), w);
     parseStandardSchema := fun _ data w => (Ret data, w);
     call := fun _ text w => (Ret (VStr text), w);
     response_text := fun _ w => (Ret EmptyString, w);
     response_body := fun _ _ w => (Ret VUndefined, w);
     response_clone := fun r w => (Ret r, w);
     js_String := fun _ => "[object Object]" |}.

(** The text of the response cannot be read. *)
Definition E_unreadable : Env unit :=
  let E := E_serverError in
  {| initializePlugins := initializePlugins E;
     createRetryStrategy := createRetryStrategy E;
     getURL := getURL E;
     getFetch := getFetch E;
     getBody := getBody E;
     getHeaders := getHeaders E;
     getMethod := getMethod E;
     detectResponseType := detectResponseType E;
     isJSONParsable := isJSONParsable E;
     jsonParse := jsonParse E;
     parseStandardSchema := parseStandardSchema E;
     call := call E;
     response_text := fun _ w => (Thr bodyUsed, w);
     response_body := response_body E;
     response_clone := response_clone E;
     js_String := js_String E |}.

End Demo2.

(** * Properties *)

Section Properties.

Context {W : Type} (E : Env W).

Implicit Types (st : State W) (evs : list Event).

(** ** Running binds *)

Lemma prefixed_nil {A} (r : Outcome A * State W * list Event) : prefixed [] r = r.
Proof. by destruct r as [[o st] evs]. Qed.

Lemma prefixed_prefixed {A} evs1 evs2 (r : Outcome A * State W * list Event) :
  prefixed evs1 (prefixed evs2 r) = prefixed (evs1 ++ evs2) r.
Proof. destruct r as [[o st] evs]. cbn. by rewrite app_assoc. Qed.

Lemma bind_val {A B} (m : @M W A) (k : A -> @M W B) st a st1 evs1 :
  m st = (Val a, st1, evs1) -> bind m k st = prefixed evs1 (k a st1).
Proof. intros H. unfold bind, prefixed. by rewrite H. Qed.

Lemma bind_exn {A B} (m : @M W A) (k : A -> @M W B) st e st1 evs1 :
  m st = (Exn e, st1, evs1) -> bind m k st = (Exn e, st1, evs1).
Proof. intros H. unfold bind. by rewrite H. Qed.

Lemma result_fields data error :
  get (result data error) "data" = data /\ get (result data error) "error" = error.
Proof. unfold result, get. by simplify_map_eq. Qed.

Lemma bind_ext {A B} (m : @M W A) (k k' : A -> @M W B) st :
  (forall a st1, k a st1 = k' a st1) -> bind m k st = bind m k' st.
Proof. intros H. unfold bind. destruct (m st) as [[[a | e |] st1] evs1]; by rewrite ?H. Qed.

Lemma bind_assoc {A B C} (m : @M W A) (k1 : A -> @M W B) (k2 : B -> @M W C) st :
  bind (bind m k1) k2 st = bind m (fun a => bind (k1 a) k2) st.
Proof.
  unfold bind. destruct (m st) as [[[a | e |] st1] evs1]; [| done | done].
  destruct (k1 a st1) as [[[b | e |] st2] evs2]; [| done | done].
  destruct (k2 b st2) as [[o st3] evs3]. by rewrite app_assoc.
Qed.

Lemma bind_emit {B} ev (k : unit -> @M W B) st :
  bind (emit ev) k st = prefixed [ev] (k tt st).
Proof. reflexivity. Qed.

Lemma bind_ret {A B} (a : A) (k : A -> @M W B) st : bind (ret a) k st = k a st.
Proof. unfold bind, ret. by destruct (k a st) as [[o st'] evs]. Qed.

Lemma ext_ret {A} (f : @Ext W A) st a w :
  f (world st) = (Ret a, w) -> ext f st = (Val a, with_world st w, []).
Proof. intros H. unfold ext. by rewrite H. Qed.

Lemma ext_thr {A} (f : @Ext W A) st e w :
  f (world st) = (Thr e, w) -> ext f st = (Exn e, with_world st w, []).
Proof. intros H. unfold ext. by rewrite H. Qed.

(** Every run of a bind is a run of its first computation, followed when
    that one returns by a run of the second. *)
Lemma bind_inv {A B} (m : @M W A) (k : A -> @M W B) st o st' evs :
  bind m k st = (o, st', evs) ->
  (exists a st1 evs1 evs2,
      m st = (Val a, st1, evs1) /\ k a st1 = (o, st', evs2) /\ evs = evs1 ++ evs2)
  \/ (m st = (OutOfFuel, st', evs) /\ o = OutOfFuel)
  \/ (exists e, m st = (Exn e, st', evs) /\ o = Exn e).
Proof.
  unfold bind. destruct (m st) as [[[a|e|] st1] evs1].
  - destruct (k a st1) as [[o2 st2] evs2] eqn:Hk. intros [= <- <- <-].
    left. by exists a, st1, evs1, evs2.
  - intros [= <- <- <-]. right; right. by exists e.
  - intros [= <- <- <-]. right; left. done.
Qed.

Lemma bind_inv_val {A B} (m : @M W A) (k : A -> @M W B) st b st' evs :
  bind m k st = (Val b, st', evs) ->
  exists a st1 evs1 evs2,
    m st = (Val a, st1, evs1) /\ k a st1 = (Val b, st', evs2) /\ evs = evs1 ++ evs2.
Proof.
  intros H. apply bind_inv in H as [H | [[_ [=]] | [e [_ [=]]]]]. done.
Qed.

Lemma ext_inv_val {A} (f : @Ext W A) st a st' evs :
  ext f st = (Val a, st', evs) ->
  exists w, f (world st) = (Ret a, w) /\ st' = with_world st w /\ evs = [].
Proof.
  unfold ext. destruct (f (world st)) as [[a'|e] w]; intros [= <- <- <-]. by exists w.
Qed.

Lemma lift_inv_val {A} (r : Res A) st a st' evs :
  lift (W := W) r st = (Val a, st', evs) -> r = Ret a /\ st' = st /\ evs = [].
Proof. destruct r; cbn; unfold ret, throw; by intros [= <- <- <-]. Qed.

(** ** The kinds of events a computation emits *)

Lemma emits_only_ret {A} P (a : A) : emits_only (W := W) P (ret (W := W) a).
Proof. by intros st o st' evs [= <- <- <-]. Qed.

Lemma emits_only_throw {A} P e : emits_only (W := W) P (throw (W := W) (A := A) e).
Proof. by intros st o st' evs [= <- <- <-]. Qed.

Lemma emits_only_lift {A} P (r : Res A) : emits_only (W := W) P (lift (W := W) r).
Proof. destruct r; [apply emits_only_ret | apply emits_only_throw]. Qed.

Lemma emits_only_ext {A} P (f : @Ext W A) : emits_only (W := W) P (ext f).
Proof.
  intros st o st' evs. unfold ext.
  by destruct (f (world st)) as [[a|e] w]; intros [= <- <- <-].
Qed.

Lemma emits_only_emit P ev : P ev = true -> emits_only (W := W) P (emit (W := W) ev).
Proof. intros HP st o st' evs [= <- <- <-]. cbn. by rewrite HP. Qed.

Lemma emits_only_bind {A B} P (m : @M W A) (k : A -> @M W B) :
  emits_only (W := W) P m -> (forall a, emits_only (W := W) P (k a)) ->
  emits_only (W := W) P (bind m k).
Proof.
  intros Hm Hk st o st' evs H.
  apply bind_inv in H as [(a & st1 & evs1 & evs2 & H1 & H2 & ->) | [[H1 _] | (e & H1 & _)]].
  - rewrite forallb_app. apply Hm in H1. apply Hk in H2. by rewrite H1, H2.
  - by apply Hm in H1.
  - by apply Hm in H1.
Qed.

Lemma emits_only_weaken {A} (P Q : Event -> bool) (m : @M W A) :
  (forall ev, P ev = true -> Q ev = true) -> emits_only (W := W) P m -> emits_only (W := W) Q m.
Proof.
  intros HPQ Hm st o st' evs H. apply Hm in H.
  rewrite forallb_forall in *. auto.
Qed.


Lemma emits_only_cloneIf P c r :
  P (EvClone r) = true -> emits_only (W := W) P (cloneIf E c r).
Proof.
  intros HP. unfold cloneIf. destruct c; [| apply emits_only_ret].
  apply emits_only_bind; [by apply emits_only_emit | intros; apply emits_only_ext].
Qed.

Lemma run_onRequest_emits hs context :
  emits_only (W := W) is_onRequest_event (run_onRequest hs context).
Proof.
  revert context. induction hs as [| [h |] hs IH]; intros context; cbn [run_onRequest].
  - apply emits_only_ret.
  - apply emits_only_bind; [by apply emits_only_emit | intros _].
    apply emits_only_bind; [apply emits_only_ext | intros [res context']].
    destruct (is_object res); [| apply IH].
    apply emits_only_bind; [by apply emits_only_emit | intros _; apply IH].
  - apply IH.
Qed.

Lemma getTimeout_emits opts controller :
  emits_only (W := W) is_request_phase (getTimeout (W := W) opts controller).
Proof.
  unfold getTimeout.
  destruct (is_nullish _); [apply emits_only_ret | by apply emits_only_emit].
Qed.

Lemma prepare_emits url options : emits_only (W := W) is_request_phase (prepare E url options).
Proof.
  unfold prepare.
  apply emits_only_bind; [apply emits_only_ext | intros [[hooks u] opts]].
  apply emits_only_bind; [apply emits_only_lift | intros fetch].
  apply emits_only_bind; [by intros st o st' evs [= <- <- <-] | intros controller].
  apply emits_only_bind; [apply emits_only_lift | intros _url].
  apply emits_only_bind; [apply emits_only_lift | intros body].
  apply emits_only_bind; [apply emits_only_ext | intros headers].
  apply emits_only_bind; [apply emits_only_lift | intros method].
  apply emits_only_bind; [| intros context].
  { eapply emits_only_weaken; [| apply run_onRequest_emits]. by intros []. }
  apply emits_only_bind; [apply getTimeout_emits | intros _; apply emits_only_ret].
Qed.

Lemma run_onResponse_emits hs cloneResponse context response :
  emits_only (W := W) is_response_hook (run_onResponse E hs cloneResponse context response).
Proof.
  revert response. induction hs as [| [h |] hs IH]; intros response; cbn [run_onResponse].
  - apply emits_only_ret.
  - apply emits_only_bind; [by apply emits_only_cloneIf | intros r'].
    apply emits_only_bind; [by apply emits_only_emit | intros _].
    apply emits_only_bind; [apply emits_only_ext | intros [| r | r]]; apply IH.
  - apply IH.
Qed.

Lemma parse_emits p text : emits_only (W := W) is_parse (parse E p text).
Proof.
  unfold parse. apply emits_only_bind; [by apply emits_only_emit | intros _].
  destruct (is_nullish p); apply emits_only_ext.
Qed.

Lemma run_onError_emits hs cloneResponse errorContext :
  emits_only (W := W) is_error_hook (run_onError E hs cloneResponse errorContext).
Proof.
  induction hs as [| [h |] hs IH]; cbn [run_onError].
  - apply emits_only_ret.
  - apply emits_only_bind.
    + destruct (ec_response errorContext) as [r |]; [| apply emits_only_ret].
      apply emits_only_bind; [by apply emits_only_cloneIf | intros; apply emits_only_ret].
    + intros response. apply emits_only_bind; [by apply emits_only_emit | intros _].
      apply emits_only_bind; [apply emits_only_ext | intros _; apply IH].
  - apply IH.
Qed.

Lemma run_onRetry_emits hs errorContext :
  emits_only (W := W) is_error_hook (run_onRetry hs errorContext).
Proof.
  induction hs as [| [h |] hs IH]; cbn [run_onRetry].
  - apply emits_only_ret.
  - destruct (ec_response errorContext) as [r |]; [| apply IH].
    apply emits_only_bind; [by apply emits_only_emit | intros _].
    apply emits_only_bind; [apply emits_only_ext | intros _; apply IH].
  - apply IH.
Qed.

(** ** Reading the trace of events of one kind *)

Lemma transport_calls_app evs1 evs2 :
  transport_calls (evs1 ++ evs2) = (transport_calls evs1 + transport_calls evs2)%nat.
Proof. unfold transport_calls. by rewrite List.filter_app, length_app. Qed.

Lemma invocations_app evs1 evs2 :
  invocations (evs1 ++ evs2) = invocations evs1 ++ invocations evs2.
Proof.
  induction evs1 as [| ev evs1 IH]; [done |]. destruct ev; cbn; by rewrite ?IH.
Qed.

Lemma retry_decisions_app evs1 evs2 :
  retry_decisions (evs1 ++ evs2) = retry_decisions evs1 ++ retry_decisions evs2.
Proof.
  induction evs1 as [| ev evs1 IH]; [done |]. destruct ev; cbn; by rewrite ?IH.
Qed.

Lemma local_events evs :
  forallb local_event evs = true ->
  transport_calls evs = 0%nat /\ invocations evs = [] /\ retry_decisions evs = [].
Proof.
  induction evs as [| ev evs IH]; [done |]. cbn [forallb].
  intros [Hev Hevs]%andb_true_iff. destruct (IH Hevs) as (H1 & H2 & H3).
  unfold transport_calls in *. destruct ev; try discriminate Hev; cbn; auto.
Qed.

Lemma emits_local {A} (P : Event -> bool) (m : @M W A) st o st' evs :
  emits_only (W := W) P m -> (forall ev, P ev = true -> local_event ev = true) ->
  m st = (o, st', evs) ->
  transport_calls evs = 0%nat /\ invocations evs = [] /\ retry_decisions evs = [].
Proof.
  intros Hm HP H. apply local_events. apply Hm in H.
  rewrite forallb_forall in *. auto.
Qed.

End Properties.

Ltac run_emit :=
  match goal with
  | |- context [bind (emit ?ev) ?k ?st] => rewrite (bind_emit ev k st); cbv beta iota
  end.

Ltac run_ret :=
  match goal with
  | |- context [bind (ret ?a) ?k ?st] => rewrite (bind_ret a k st); cbv beta iota
  end.

Ltac run_with H :=
  match goal with
  | |- context [bind ?m ?k ?st] => rewrite (bind_val m k st _ _ _ H); cbv beta iota
  end.

Section Routing.

Context {W : Type} (E : Env W).

Implicit Types (st : State W) (evs : list Event).

(** ** The transport call and the two paths into handleError *)

Lemma try_fetch (f : @Ext W Response) u c st :
  try (bind (emit (EvFetch u c)) (fun _ => ext f)) st =
    (Val (fst (f (world st))), with_world st (snd (f (world st))), [EvFetch u c]).
Proof.
  unfold try, bind, emit, ext. by destruct (f (world st)) as [[r | e] w].
Qed.

Lemma text_ret response st responseText w :
  response_text E response (world st) = (Ret responseText, w) ->
  text E response st = (Val responseText, with_world st w, [EvText response]).
Proof. intros H. unfold text. by rewrite bind_emit, (ext_ret _ _ _ _ H). Qed.

Lemma routed_run url options st errorContext hooks cloneResponse throwError st' evs fuel :
  routed E url options st errorContext hooks cloneResponse throwError st' evs ->
  betterFetch E (S fuel) url options st =
    prefixed evs
      (handleError E errorContext hooks options url (betterFetch E fuel)
         cloneResponse throwError st').
Proof.
  intros [p st1 evs1 e w2 Hp Hf Ha
         | p st1 evs1 r0 w2 response st3 evs3 responseText w4 errorObject st5 evs5
             Hp Hf Hr Hok Ht He]; cbn [betterFetch].
  - run_emit. run_with Hp.
    run_with (try_fetch (p_fetch p (get (p_context p) "url") (p_context p))
                (get (p_context p) "url") (p_context p) st1).
    rewrite Hf. cbn [fst snd]. unfold clearTimeout. run_emit.
    rewrite Ha, !prefixed_prefixed. f_equal. cbn. by rewrite <- !app_assoc.
  - run_emit. run_with Hp.
    run_with (try_fetch (p_fetch p (get (p_context p) "url") (p_context p))
                (get (p_context p) "url") (p_context p) st1).
    rewrite Hf. cbn [fst snd]. unfold clearTimeout. run_emit. run_with Hr. rewrite Hok.
    run_with (text_ret _ _ _ _ Ht). run_with He.
    rewrite !prefixed_prefixed.
    f_equal. cbn. by rewrite <- !app_assoc.
Qed.


Lemma betterFetch_response fuel url options st p st1 evs1 r0 w2 response st3 evs3 :
  prepare E url options st = (Val p, st1, evs1) ->
  p_fetch p (get (p_context p) "url") (p_context p) (world st1) = (Ret r0, w2) ->
  run_onResponse E (onResponse (p_hooks p)) (get (get options "hookOptions") "cloneResponse")
    (p_context p) r0 (with_world st1 w2) = (Val response, st3, evs3) ->
  ok response = true ->
  betterFetch E (S fuel) url options st =
    prefixed
      (EvInvoke url options :: evs1 ++
         [EvFetch (get (p_context p) "url") (p_context p); EvClearTimeout (p_controller p)] ++
         evs3)
      (let context := p_context p in
       let cloneResponse := get (get options "hookOptions") "cloneResponse" in
       (if negb (negb (is_string "HEAD" (get context "method")))
        then ret (result (VStr EmptyString) VNull)
        else
          bind (decode E context response) (fun data =>
          bind (validate E context data) (fun data =>
          bind (run_onSuccess E (onSuccess (p_hooks p)) cloneResponse data context response)
            (fun _ => if truthy (get options "throw") then ret data
                      else ret (result data VNull))))) st3).
Proof.
  intros Hp Hf Hr Hok. cbn [betterFetch].
  run_emit. run_with Hp.
  run_with (try_fetch (p_fetch p (get (p_context p) "url") (p_context p))
              (get (p_context p) "url") (p_context p) st1).
  rewrite Hf. cbn [fst snd]. unfold clearTimeout. run_emit. run_with Hr. rewrite Hok.
  rewrite !prefixed_prefixed. f_equal. cbn. by rewrite <- !app_assoc.
Qed.

Lemma betterFetch_calls_transport fuel url options st p st1 evs1 :
  prepare E url options st = (Val p, st1, evs1) ->
  exists o st' evs',
    betterFetch E (S fuel) url options st =
      (o, st', EvInvoke url options :: evs1 ++
                 EvFetch (get (p_context p) "url") (p_context p) :: evs').
Proof.
  intros Hp. cbn [betterFetch]. run_emit. run_with Hp.
  match goal with
  | |- context [bind ?m ?k ?st] =>
      rewrite (bind_val m k st _ _ _
                 (try_fetch (p_fetch p (get (p_context p) "url") (p_context p))
                    (get (p_context p) "url") (p_context p) st1))
  end.
  rewrite !prefixed_prefixed.
  match goal with
  | |- context [prefixed _ ?r] => destruct r as [[o st'] evs'] eqn:Hr
  end.
  exists o, st', evs'. cbn. by rewrite <- app_assoc.
Qed.

(** ** The error-handling routine *)

Lemma handleError_no_retry errorContext hooks options url fetchFn cloneResponse throwError
    st st1 evs1 :
  run_onError E (onError hooks) cloneResponse errorContext st = (Val tt, st1, evs1) ->
  truthy (get options "retry") = false ->
  handleError E errorContext hooks options url fetchFn cloneResponse throwError st =
    (gives_up errorContext options throwError, st1, evs1).
Proof.
  intros He Hr. unfold handleError, gives_up. run_with He. rewrite Hr.
  destruct (truthy (get options "throw")); cbn; by rewrite app_nil_r.
Qed.

Lemma handleError_decision errorContext hooks options url fetchFn cloneResponse throwError
    st st1 evs1 strategy retry w2 :
  run_onError E (onError hooks) cloneResponse errorContext st = (Val tt, st1, evs1) ->
  truthy (get options "retry") = true ->
  createRetryStrategy E (get options "retry") = Ret strategy ->
  shouldAttemptRetry strategy (nullish (get options "retryAttempt") (VNum 0))
    (ec_response errorContext) (world st1) = (Ret retry, w2) ->
  handleError E errorContext hooks options url fetchFn cloneResponse throwError st =
    prefixed
      (evs1 ++ [EvShouldAttemptRetry (nullish (get options "retryAttempt") (VNum 0))
                  (ec_response errorContext) retry])
      (if retry then
         bind (run_onRetry (onRetry hooks) errorContext) (fun _ =>
         bind (emit (EvSleep (getDelay strategy (nullish (get options "retryAttempt") (VNum 0)))))
           (fun _ =>
              fetchFn url
                (VObj KObject
                   (<["retryAttempt" :=
                        plus_one E (nullish (get options "retryAttempt") (VNum 0))]>
                      (spread options))))) (with_world st1 w2)
       else (gives_up errorContext options throwError, with_world st1 w2, [])).
Proof.
  intros He Hr Hs Hd. unfold handleError, gives_up. run_with He. rewrite Hr, Hs.
  cbn [lift]. run_ret. run_with (ext_ret _ _ _ _ Hd). run_emit.
  rewrite !prefixed_prefixed, app_nil_r.
  destruct retry; [reflexivity |].
  by destruct (truthy (get options "throw")).
Qed.

End Routing.

Section Claims.

Context {W : Type} (E : Env W).

Implicit Types (st : State W) (evs : list Event).

Lemma forallb_impl (P Q : Event -> bool) evs :
  (forall ev, P ev = true -> Q ev = true) -> forallb P evs = true -> forallb Q evs = true.
Proof. rewrite !forallb_forall. auto. Qed.

Lemma prepare_events (Q : Event -> bool) url options st o st' evs :
  (forall ev, is_request_phase ev = true -> Q ev = true) ->
  prepare E url options st = (o, st', evs) -> forallb Q evs = true.
Proof. intros HQ H. eapply forallb_impl; [exact HQ |]. by eapply prepare_emits. Qed.

Lemma run_onResponse_events (Q : Event -> bool) hs c context r st o st' evs :
  (forall ev, is_response_hook ev = true -> Q ev = true) ->
  run_onResponse E hs c context r st = (o, st', evs) -> forallb Q evs = true.
Proof. intros HQ H. eapply forallb_impl; [exact HQ |]. by eapply run_onResponse_emits. Qed.

Lemma decode_emits context response :
  emits_only (W := W) is_body_use (decode E context response).
Proof.
  unfold decode.
  destruct (_ || _).
  - apply emits_only_bind.
    + unfold text. apply emits_only_bind; [by apply emits_only_emit | intros; apply emits_only_ext].
    + intros t. eapply emits_only_weaken; [| apply parse_emits]. by intros [].
  - apply emits_only_bind; [by apply emits_only_emit | intros; apply emits_only_ext].
Qed.

(** C2: a transport failure that is not an abort is handed to the
    error-handling routine, whose result is the result of the pipeline; the
    error context has no response, and its error value has status 0, status
    text "Network Error", the message of the thrown value and the thrown
    value as cause. *)
Theorem network_failure_handled fuel url options st p st1 evs1 fetchError w2 :
  prepare E url options st = (Val p, st1, evs1) ->
  p_fetch p (get (p_context p) "url") (p_context p) (world st1) = (Thr fetchError, w2) ->
  isAbortError fetchError = false ->
  betterFetch E (S fuel) url options st =
    prefixed
      (EvInvoke url options :: evs1 ++
         [EvFetch (get (p_context p) "url") (p_context p); EvClearTimeout (p_controller p)])
      (handleError E
         {| ec_response := None; ec_responseText := None;
            ec_request := p_context p; ec_error := networkError E fetchError |}
         (p_hooks p) options url (betterFetch E fuel) VUndefined VUndefined
         (with_world st1 w2))
  /\ get (networkError E fetchError) "status" = VNum 0
  /\ get (networkError E fetchError) "statusText" = VStr "Network Error"
  /\ get (networkError E fetchError) "message" =
       (if instanceof_Error fetchError then get fetchError "message"
        else VStr (js_String E fetchError))
  /\ get (networkError E fetchError) "cause" = fetchError.
Proof.
  intros Hp Hf Ha. split.
  - apply routed_run. by apply routed_network.
  - unfold networkError, get. by simplify_map_eq.
Qed.

(** C3 (amended): when the transport throws a DOMException named
    AbortError, the exception of a signal aborted without a reason, the
    pipeline throws that very exception: the timer is cleared and nothing
    else happens, no [onError] hook is called, no retry is decided and the
    transport is not called again. *)
Theorem abort_rethrown fuel url options st p st1 evs1 fetchError w2 :
  prepare E url options st = (Val p, st1, evs1) ->
  p_fetch p (get (p_context p) "url") (p_context p) (world st1) = (Thr fetchError, w2) ->
  isAbortError fetchError = true ->
  exists evs,
    betterFetch E (S fuel) url options st = (Exn fetchError, with_world st1 w2, evs)
    /\ evs = EvInvoke url options :: evs1 ++
               [EvFetch (get (p_context p) "url") (p_context p);
                EvClearTimeout (p_controller p)]
    /\ forallb (fun ev => negb (is_error_handling ev)) evs = true
    /\ transport_calls evs = 1%nat.
Proof.
  intros Hp Hf Ha. eexists. split; [| split; [reflexivity | split]].
  - cbn [betterFetch]. run_emit. run_with Hp.
    run_with (try_fetch (p_fetch p (get (p_context p) "url") (p_context p))
                (get (p_context p) "url") (p_context p) st1).
    rewrite Hf. cbn [fst snd]. unfold clearTimeout. run_emit. rewrite Ha.
    cbn. by rewrite ?app_nil_r, <- ?app_assoc.
  - cbn [forallb]. rewrite forallb_app. cbn.
    rewrite (prepare_events (fun ev => negb (is_error_handling ev)) _ _ _ _ _ _
               ltac:(by intros []) Hp).
    done.
  - change (EvInvoke url options :: ?l) with ([EvInvoke url options] ++ l).
    rewrite !transport_calls_app.
    destruct (emits_local _ _ _ _ _ _ (prepare_emits E url options) ltac:(by intros []) Hp)
      as (-> & _).
    reflexivity.
Qed.

(** C4: a successful HEAD call returns an object whose [data] is the empty
    string and whose [error] is null, and which has no other field; the
    pipeline does not read, decode or validate the response body. *)
Theorem head_returns_empty_data fuel url options st p st1 evs1 r0 w2 response st3 evs3 :
  prepare E url options st = (Val p, st1, evs1) ->
  p_fetch p (get (p_context p) "url") (p_context p) (world st1) = (Ret r0, w2) ->
  run_onResponse E (onResponse (p_hooks p)) (get (get options "hookOptions") "cloneResponse")
    (p_context p) r0 (with_world st1 w2) = (Val response, st3, evs3) ->
  ok response = true ->
  get (p_context p) "method" = VStr "HEAD" ->
  exists v evs,
    betterFetch E (S fuel) url options st = (Val v, st3, evs)
    /\ v = result (VStr EmptyString) VNull
    /\ get v "data" = VStr EmptyString
    /\ get v "error" = VNull
    /\ (forall k, has v k = true -> k = "data" \/ k = "error")
    /\ forallb (fun ev => negb (is_body_use ev)) evs = true.
Proof.
  intros Hp Hf Hr Hok Hm. eexists _, _.
  split; [| split; [reflexivity | split; [reflexivity | split; [reflexivity | split]]]].
  - rewrite (betterFetch_response E _ _ _ _ _ _ _ _ _ _ _ _ Hp Hf Hr Hok).
    cbv zeta. rewrite Hm. cbn. by rewrite ?app_nil_r, <- ?app_assoc.
  - intros k. unfold result, has.
    destruct (decide (k = "data")) as [-> | Hd]; [by left |].
    destruct (decide (k = "error")) as [-> | He]; [by right |].
    rewrite lookup_insert_ne, lookup_singleton_ne by done.
    intros H. apply bool_decide_eq_true in H. by destruct H.
  - cbn [forallb]. rewrite forallb_app. cbn [forallb app].
    rewrite (prepare_events (fun ev => negb (is_body_use ev)) _ _ _ _ _ _
               ltac:(by intros []) Hp).
    rewrite (run_onResponse_events (fun ev => negb (is_body_use ev)) _ _ _ _ _ _ _ _
               ltac:(by intros []) Hr).
    done.
Qed.

(** C6: with an output schema configured and validation not disabled, a
    validation failure on the decoded value is thrown by the pipeline,
    whatever the [throw] option: no success hook runs, and neither the retry
    decision nor any other step of the error-handling routine is reached. *)
Theorem validation_failure_thrown fuel url options st p st1 evs1 r0 w2 response st3 evs3
    data st4 evs4 e w5 :
  prepare E url options st = (Val p, st1, evs1) ->
  p_fetch p (get (p_context p) "url") (p_context p) (world st1) = (Ret r0, w2) ->
  run_onResponse E (onResponse (p_hooks p)) (get (get options "hookOptions") "cloneResponse")
    (p_context p) r0 (with_world st1 w2) = (Val response, st3, evs3) ->
  ok response = true ->
  is_string "HEAD" (get (p_context p) "method") = false ->
  decode E (p_context p) response st3 = (Val data, st4, evs4) ->
  truthy (get (p_context p) "output") = true ->
  truthy (get (p_context p) "disableValidation") = false ->
  parseStandardSchema E (get (p_context p) "output") data (world st4) = (Thr e, w5) ->
  exists evs,
    betterFetch E (S fuel) url options st = (Exn e, with_world st4 w5, evs)
    /\ evs = EvInvoke url options :: evs1 ++
               [EvFetch (get (p_context p) "url") (p_context p);
                EvClearTimeout (p_controller p)] ++
               evs3 ++ evs4 ++ [EvValidate (get (p_context p) "output") data]
    /\ forallb (fun ev => negb (is_error_handling ev)) evs = true.
Proof.
  intros Hp Hf Hr Hok Hm Hd Ho Hv He. eexists. split; [| split; [reflexivity |]].
  - rewrite (betterFetch_response E _ _ _ _ _ _ _ _ _ _ _ _ Hp Hf Hr Hok).
    cbv zeta. rewrite Hm. cbn [negb]. run_with Hd.
    unfold validate. rewrite Ho, Hv. cbn [negb andb].
    match goal with
    | |- context [bind (bind ?m ?k1) ?k ?st] =>
        rewrite (bind_exn (bind m k1) k st e (with_world st4 w5)
                   [EvValidate (get (p_context p) "output") data])
    end.
    2: { run_emit. by rewrite (ext_thr _ _ _ _ He). }
    cbn. by rewrite ?app_nil_r, <- ?app_assoc.
  - cbn [forallb]. rewrite !forallb_app. cbn [forallb].
    rewrite (prepare_events (fun ev => negb (is_error_handling ev)) _ _ _ _ _ _
               ltac:(by intros []) Hp).
    rewrite (run_onResponse_events (fun ev => negb (is_error_handling ev)) _ _ _ _ _ _ _ _
               ltac:(by intros []) Hr).
    rewrite (forallb_impl is_body_use (fun ev => negb (is_error_handling ev)) evs4
               ltac:(by intros []) (decode_emits _ _ _ _ _ _ Hd)).
    done.
Qed.


Lemma parsed_events responseText p' st o st' evs :
  (if isJSONParsable E responseText then parse E p' responseText else ret VNull) st
    = (o, st', evs) ->
  forallb is_parse evs = true.
Proof.
  destruct (isJSONParsable E responseText); [apply parse_emits | apply emits_only_ret].
Qed.

Lemma filter_none (P Q : Event -> bool) evs :
  (forall ev, P ev = true -> Q ev = false) -> forallb P evs = true -> List.filter Q evs = [].
Proof.
  intros HPQ. induction evs as [| ev evs IH]; [done |]. cbn.
  intros [Hev Hevs]%andb_true_iff. by rewrite (HPQ _ Hev), IH.
Qed.

(** C5 (amended): for a response that is not OK the pipeline reads the
    response text once and hands the error-handling routine an error object
    with the status and status text of the response and, besides, the fields
    of the parsed JSON when the text is JSON-parseable. When it is not, the
    error object has these two fields only; once the routine gives up, the
    raw text is the body of the error thrown when [throw] is set, and the
    error returned when [throw] is unset is the error object. *)
Theorem non_ok_error_shape fuel url options st p st1 evs1 r0 w2 response st3 evs3
    responseText w4 errorObject st5 evs5 :
  prepare E url options st = (Val p, st1, evs1) ->
  p_fetch p (get (p_context p) "url") (p_context p) (world st1) = (Ret r0, w2) ->
  run_onResponse E (onResponse (p_hooks p)) (get (get options "hookOptions") "cloneResponse")
    (p_context p) r0 (with_world st1 w2) = (Val response, st3, evs3) ->
  ok response = false ->
  response_text E response (world st3) = (Ret responseText, w4) ->
  (if isJSONParsable E responseText then parse E (get options "jsonParser") responseText
   else ret VNull) (with_world st3 w4) = (Val errorObject, st5, evs5) ->
  let error :=
    VObj KObject
      (<["statusText" := VStr (statusText response)]>
        (<["status" := VNum (status response)]> (spread errorObject))) in
  let errorContext :=
    {| ec_response := Some response; ec_responseText := Some responseText;
       ec_request := p_context p; ec_error := error |} in
  let cloneResponse := get (get options "hookOptions") "cloneResponse" in
  let throwError := if isJSONParsable E responseText then errorObject else VStr responseText in
  let evs :=
    EvInvoke url options :: evs1 ++
      [EvFetch (get (p_context p) "url") (p_context p); EvClearTimeout (p_controller p)] ++
      evs3 ++ [EvText response] ++ evs5 in
  betterFetch E (S fuel) url options st =
    prefixed evs
      (handleError E errorContext (p_hooks p) options url (betterFetch E fuel)
         cloneResponse throwError st5)
  /\ List.filter is_text evs = [EvText response]
  /\ get error "status" = VNum (status response)
  /\ get error "statusText" = VStr (statusText response)
  /\ (forall k, k <> "status" -> k <> "statusText" ->
        get error k = default VUndefined (spread errorObject !! k))
  /\ (forall st6 evs6,
        run_onError E (onError (p_hooks p)) cloneResponse errorContext st5 = (Val tt, st6, evs6) ->
        truthy (get options "retry") = false ->
        betterFetch E (S fuel) url options st =
          (gives_up errorContext options throwError, st6, evs ++ evs6))
  /\ (isJSONParsable E responseText = false ->
        error = VObj KObject
                  (<["statusText" := VStr (statusText response)]>
                    {["status" := VNum (status response)]})
        /\ gives_up errorContext options throwError =
             if truthy (get options "throw") then
               Exn (BetterFetchError (VNum (status response)) (VStr (statusText response))
                      (VStr responseText))
             else Val (result VNull error)).
Proof.
  intros Hp Hf Hr Hok Ht He error errorContext cloneResponse throwError evs.
  assert (Hrun : betterFetch E (S fuel) url options st =
                 prefixed evs
                   (handleError E errorContext (p_hooks p) options url (betterFetch E fuel)
                      cloneResponse throwError st5)).
  { apply routed_run. by eapply routed_http. }
  assert (Hs : get error "status" = VNum (status response)).
  { unfold error, get. by rewrite lookup_insert_ne, lookup_insert_eq. }
  assert (Hst : get error "statusText" = VStr (statusText response)).
  { unfold error, get. by rewrite lookup_insert_eq. }
  split; [exact Hrun |]. split; [| split; [exact Hs | split; [exact Hst | split; [| split]]]].
  - unfold evs. cbn [List.filter is_text]. rewrite !List.filter_app.
    rewrite (filter_none is_request_phase is_text evs1 ltac:(by intros [])
               (prepare_emits E _ _ _ _ _ _ Hp)).
    rewrite (filter_none is_response_hook is_text evs3 ltac:(by intros [])
               (run_onResponse_emits E _ _ _ _ _ _ _ _ Hr)).
    rewrite (filter_none is_parse is_text evs5 ltac:(by intros []) (parsed_events _ _ _ _ _ _ He)).
    reflexivity.
  - intros k Hk1 Hk2. unfold error, get. by rewrite !lookup_insert_ne.
  - intros st6 evs6 Hh Hretry. rewrite Hrun.
    rewrite (handleError_no_retry E _ _ _ _ _ _ _ _ _ _ Hh Hretry). reflexivity.
  - intros Hn. unfold gives_up, throwError, errorContext. cbn [ec_error]. rewrite Hs, Hst.
    rewrite Hn in He |- *. injection He as <- _ _. split; [reflexivity |].
    reflexivity.
Qed.

(** C9: a call routed to the error-handling routine runs it on the options
    the caller passed. If these hold neither a retry policy nor the throw
    flag, no retry is decided and nothing is thrown, whatever the plugins
    resolved; and a retry re-invokes the pipeline on the caller's options
    with the attempt counter incremented. *)
Theorem handleError_reads_caller_options fuel url options st errorContext hooks
    cloneResponse throwError st1 evs1 st2 evs2 :
  routed E url options st errorContext hooks cloneResponse throwError st1 evs1 ->
  run_onError E (onError hooks) cloneResponse errorContext st1 = (Val tt, st2, evs2) ->
  betterFetch E (S fuel) url options st =
    prefixed evs1
      (handleError E errorContext hooks options url (betterFetch E fuel)
         cloneResponse throwError st1)
  /\ (truthy (get options "retry") = false ->
      betterFetch E (S fuel) url options st =
        (gives_up errorContext options throwError, st2, evs1 ++ evs2))
  /\ (forall strategy retry w3,
        truthy (get options "retry") = true ->
        createRetryStrategy E (get options "retry") = Ret strategy ->
        shouldAttemptRetry strategy (nullish (get options "retryAttempt") (VNum 0))
          (ec_response errorContext) (world st2) = (Ret retry, w3) ->
        let attempt := nullish (get options "retryAttempt") (VNum 0) in
        betterFetch E (S fuel) url options st =
          prefixed (evs1 ++ evs2 ++ [EvShouldAttemptRetry attempt (ec_response errorContext) retry])
            (if retry then
               bind (run_onRetry (onRetry hooks) errorContext) (fun _ =>
               bind (emit (EvSleep (getDelay strategy attempt))) (fun _ =>
                 betterFetch E fuel url
                   (VObj KObject (<["retryAttempt" := plus_one E attempt]> (spread options)))))
                 (with_world st2 w3)
             else (gives_up errorContext options throwError, with_world st2 w3, []))).
Proof.
  intros Hrouted Hh.
  pose proof (routed_run E _ _ _ _ _ _ _ _ _ fuel Hrouted) as Hrun.
  split; [exact Hrun |]. split.
  - intros Hretry. rewrite Hrun.
    rewrite (handleError_no_retry E _ _ _ _ _ _ _ _ _ _ Hh Hretry). reflexivity.
  - intros strategy retry w3 Hretry Hs Hd attempt. rewrite Hrun.
    rewrite (handleError_decision E _ _ _ _ _ _ _ _ _ _ _ _ _ Hh Hretry Hs Hd).
    rewrite prefixed_prefixed. reflexivity.
Qed.

End Claims.

Section Retry.

Context {W : Type} (E : Env W).

Implicit Types (st : State W) (evs : list Event).

Lemma routed_events url options st errorContext hooks cloneResponse throwError st' evs :
  routed E url options st errorContext hooks cloneResponse throwError st' evs ->
  transport_calls evs = 1%nat /\ invocations evs = [options] /\ retry_decisions evs = [].
Proof.
  intros [p st1 evs1 e w2 Hp Hf Ha
         | p st1 evs1 r0 w2 response st3 evs3 responseText w4 errorObject st5 evs5
             Hp Hf Hr Hok Ht He].
  - destruct (emits_local _ _ _ _ _ _ (prepare_emits E url options) ltac:(by intros []) Hp)
      as (H1 & H2 & H3).
    change (EvInvoke url options :: ?l) with ([EvInvoke url options] ++ l).
    rewrite !transport_calls_app, !invocations_app, !retry_decisions_app, H1, H2, H3.
    done.
  - destruct (emits_local _ _ _ _ _ _ (prepare_emits E url options) ltac:(by intros []) Hp)
      as (H1 & H2 & H3).
    destruct (emits_local _ _ _ _ _ _ (run_onResponse_emits E _ _ _ _) ltac:(by intros []) Hr)
      as (H4 & H5 & H6).
    destruct (local_events evs5) as (H7 & H8 & H9).
    { eapply forallb_impl; [| by eapply parsed_events]. by intros []. }
    change (EvInvoke url options :: ?l) with ([EvInvoke url options] ++ l).
    rewrite !transport_calls_app, !invocations_app, !retry_decisions_app.
    rewrite H1, H2, H3, H4, H5, H6, H7, H8, H9. done.
Qed.

Lemma attempt_options_retry c m k :
  get (attempt_options (VObj c m) k) "retry" = get (VObj c m) "retry".
Proof. destruct k; [done |]. cbn. by rewrite lookup_insert_ne. Qed.

Lemma attempt_options_throw c m k :
  get (attempt_options (VObj c m) k) "throw" = get (VObj c m) "throw".
Proof. destruct k; [done |]. cbn. by rewrite lookup_insert_ne. Qed.

Lemma attempt_options_attempt c m k :
  nullish (get (VObj c m) "retryAttempt") (VNum 0) = VNum 0 ->
  nullish (get (attempt_options (VObj c m) k) "retryAttempt") (VNum 0) = VNum (Z.of_nat k).
Proof. destruct k; [done |]. intros _. cbn. by rewrite lookup_insert_eq. Qed.

Lemma attempt_options_next c m k :
  VObj KObject
    (<["retryAttempt" := VNum (Z.of_nat k + 1)]> (spread (attempt_options (VObj c m) k)))
  = attempt_options (VObj c m) (S k).
Proof.
  replace (Z.of_nat k + 1) with (Z.of_nat (S k)) by lia.
  destruct k; [done |]. cbn [attempt_options spread]. by rewrite insert_insert_eq.
Qed.

Lemma retry_from (N : nat) interval url c m :
  retry_as_specified E ->
  specRetryPolicy (get (VObj c m) "retry") = Some (Linear (Z.of_nat N) interval None) ->
  nullish (get (VObj c m) "retryAttempt") (VNum 0) = VNum 0 ->
  always_fails E url (VObj c m) N ->
  forall d k fuel st, (k + d = N)%nat -> (d < fuel)%nat ->
    exists o st' evs,
      betterFetch E fuel url (attempt_options (VObj c m) k) st = (o, st', evs)
      /\ (exists errorContext throwError,
            o = gives_up errorContext (VObj c m) throwError)
      /\ transport_calls evs = S d
      /\ invocations evs = map (attempt_options (VObj c m)) (seq k (S d))
      /\ List.filter snd (retry_decisions evs) =
           map (fun i => (VNum (Z.of_nat i), true)) (seq k d).
Proof.
  intros Hspec Hpol H0 Hfail.
  induction d as [| d IH]; intros k [| fuel] st Hk Hfuel; try lia.
  - (* the last attempt *)
    destruct (Hfail k st ltac:(lia))
      as (errorContext & hooks & cloneResponse & throwError & st1 & evs1 & Hrouted & Hret).
    destruct (Hret cloneResponse errorContext st1) as [(st2 & evs2 & Hh) _].
    destruct (routed_events _ _ _ _ _ _ _ _ _ Hrouted) as (T1 & I1 & D1).
    destruct (emits_local _ _ _ _ _ _ (run_onError_emits E _ _ _) ltac:(by intros []) Hh)
      as (T2 & I2 & D2).
    rewrite (routed_run E _ _ _ _ _ _ _ _ _ fuel Hrouted).
    destruct (truthy (get (VObj c m) "retry")) eqn:Htruthy.
    + rewrite (handleError_decision E _ _ _ _ _ _ _ _ _ _
                 (specRetryStrategy (Linear (Z.of_nat N) interval None)) false (world st2) Hh).
      * eexists _, _, _. split; [reflexivity |].
        split; [| rewrite !transport_calls_app, !invocations_app, !retry_decisions_app,
                    T1, T2, I1, I2, D1, D2; cbn; rewrite ?app_nil_r; done].
        exists errorContext, throwError. unfold gives_up.
        by rewrite attempt_options_throw.
      * by rewrite attempt_options_retry.
      * rewrite attempt_options_retry. by apply Hspec.
      * rewrite (attempt_options_attempt _ _ _ H0). cbn.
        replace (Z.of_nat k <? Z.of_nat N) with false by (symmetry; apply Z.ltb_ge; lia).
        done.
    + rewrite (handleError_no_retry E _ _ _ _ _ _ _ _ _ _ Hh)
        by (by rewrite attempt_options_retry).
      eexists _, _, _. split; [reflexivity |].
      split; [| rewrite !transport_calls_app, !invocations_app, !retry_decisions_app,
                  T1, T2, I1, I2, D1, D2; cbn; done].
      exists errorContext, throwError. unfold gives_up. by rewrite attempt_options_throw.
  - (* an attempt followed by a retry *)
    destruct (Hfail k st ltac:(lia))
      as (errorContext & hooks & cloneResponse & throwError & st1 & evs1 & Hrouted & Hret).
    destruct (Hret cloneResponse errorContext st1) as [(st2 & evs2 & Hh) _].
    destruct (Hret cloneResponse errorContext st2) as [_ (st3 & evs3 & Hr)].
    destruct (routed_events _ _ _ _ _ _ _ _ _ Hrouted) as (T1 & I1 & D1).
    destruct (emits_local _ _ _ _ _ _ (run_onError_emits E _ _ _) ltac:(by intros []) Hh)
      as (T2 & I2 & D2).
    destruct (emits_local _ _ _ _ _ _ (run_onRetry_emits _ _) ltac:(by intros []) Hr)
      as (T3 & I3 & D3).
    destruct (IH (S k) fuel st3 ltac:(lia) ltac:(lia))
      as (o & st' & evs & Hrec & Hgive & T4 & I4 & D4).
    assert (Htruthy : truthy (get (VObj c m) "retry") = true).
    { destruct (get (VObj c m) "retry") as [| | | n | | | [] ?]; try discriminate Hpol; [| done].
      cbn in Hpol |- *. injection Hpol as Hn _. apply negb_true_iff, Z.eqb_neq. lia. }
    rewrite (routed_run E _ _ _ _ _ _ _ _ _ fuel Hrouted).
    rewrite (handleError_decision E _ _ _ _ _ _ _ _ _ _
               (specRetryStrategy (Linear (Z.of_nat N) interval None)) true (world st2) Hh).
    + replace (with_world st2 (world st2)) with st2 by by destruct st2.
      run_with Hr. run_emit.
      rewrite (attempt_options_attempt _ _ _ H0). cbn [plus_one].
      rewrite attempt_options_next, Hrec. cbn [prefixed].
      eexists _, _, _. split; [reflexivity |]. split; [exact Hgive |].
      rewrite !transport_calls_app, !invocations_app, !retry_decisions_app.
      rewrite T1, T2, T3, T4, I1, I2, I3, I4, D1, D2, D3. cbn [app].
      split; [done |]. split; [done |].
      cbn. by rewrite D4.
    + by rewrite attempt_options_retry.
    + rewrite attempt_options_retry. by apply Hspec.
    + rewrite (attempt_options_attempt _ _ _ H0). cbn.
      replace (Z.of_nat k <? Z.of_nat N) with true by (symmetry; apply Z.ltb_lt; lia).
      done.
Qed.

(** C1: with a linear retry policy of count [N] and no status allow-list, a
    request that fails at every attempt is retried exactly [N] times and
    then given up: the retries taken are those of the attempts 0 to [N-1],
    each re-invokes the pipeline with the attempt counter incremented by
    one, and the transport is invoked [N+1] times. *)
Theorem linear_retry_count (N : nat) interval fuel url options st :
  retry_as_specified E ->
  specRetryPolicy (get options "retry") = Some (Linear (Z.of_nat N) interval None) ->
  nullish (get options "retryAttempt") (VNum 0) = VNum 0 ->
  always_fails E url options N ->
  (N < fuel)%nat ->
  exists o st' evs,
    betterFetch E fuel url options st = (o, st', evs)
    /\ (exists errorContext throwError, o = gives_up errorContext options throwError)
    /\ transport_calls evs = S N
    /\ invocations evs = map (attempt_options options) (seq 0 (S N))
    /\ List.filter snd (retry_decisions evs) =
         map (fun i => (VNum (Z.of_nat i), true)) (seq 0 N).
Proof.
  intros Hspec Hpol H0 Hfail Hfuel.
  destruct options as [| | | | | | c m]; try discriminate Hpol.
  exact (retry_from N interval url c m Hspec Hpol H0 Hfail N 0%nat fuel st eq_refl Hfuel).
Qed.

End Retry.

Section Request.

Context {W : Type} (E : Env W).

Implicit Types (st : State W) (evs : list Event).

(** ** The request context *)

Lemma getTimeout_inv opts controller st o st' evs :
  getTimeout opts controller st = (o, st', evs) ->
  o = Val tt /\ st' = st /\
  evs = if is_nullish (default VUndefined (opts !! "timeout")) then []
        else [EvSetTimeout controller (default VUndefined (opts !! "timeout"))].
Proof.
  unfold getTimeout.
  by destruct (is_nullish _); intros [= <- <- <-].
Qed.

(** What a completed run of lines 114-154 has done. *)
Lemma prepare_inv url options st p st' evs :
  prepare E url options st = (Val p, st', evs) ->
  exists _url headers body method st1 context evsR,
    run_onRequest (onRequest (p_hooks p))
      (initialContext (p_opts p) _url headers body method
         (nullish (default VUndefined (p_opts p !! "signal")) (signal_of (next_controller st))))
      st1 = (Val context, st', evsR)
    /\ p_context p = inferDuplex options context
    /\ p_controller p = next_controller st
    /\ evs = evsR ++
         (if is_nullish (default VUndefined (p_opts p !! "timeout")) then []
          else [EvSetTimeout (next_controller st) (default VUndefined (p_opts p !! "timeout"))]).
Proof.
  unfold prepare. intros H.
  apply bind_inv_val in H as ([[hooks u] opts] & st1 & evs1 & evs2 & Hi & H & ->).
  apply ext_inv_val in Hi as (w1 & Hi & -> & ->).
  apply bind_inv_val in H as (fetch & st2 & evs3 & evs4 & Hf & H & ->).
  apply lift_inv_val in Hf as (Hf & -> & ->).
  apply bind_inv_val in H as (controller & st3 & evs5 & evs6 & Hc & H & ->).
  injection Hc as <- <- <-.
  apply bind_inv_val in H as (_url & st4 & evs7 & evs8 & Hu & H & ->).
  apply lift_inv_val in Hu as (Hu & -> & ->).
  apply bind_inv_val in H as (body & st5 & evs9 & evs10 & Hb & H & ->).
  apply lift_inv_val in Hb as (Hb & -> & ->).
  apply bind_inv_val in H as (headers & st6 & evs11 & evs12 & Hh & H & ->).
  apply ext_inv_val in Hh as (w2 & Hh & -> & ->).
  apply bind_inv_val in H as (method & st7 & evs13 & evs14 & Hm & H & ->).
  apply lift_inv_val in Hm as (Hm & -> & ->).
  apply bind_inv_val in H as (context & st8 & evsR & evs15 & Hr & H & ->).
  apply bind_inv_val in H as (u' & st9 & evsT & evs16 & Ht & H & ->).
  apply getTimeout_inv in Ht as (_ & -> & ->).
  injection H as <- <- <-.
  exists _url, headers, body, method. eexists _, context, evsR. cbn.
  split; [exact Hr |]. by rewrite app_nil_r.
Qed.

(** Lines 114-154 once the [onRequest] loop is reached: the loop, the duplex
    inference and the arming of the timer. *)
Lemma prepare_built url options st hooks opts fetch controller context0 st0 :
  built E url options st hooks opts fetch controller context0 st0 ->
  prepare E url options st =
    bind (run_onRequest (onRequest hooks) context0)
      (fun context =>
         bind (getTimeout opts controller)
           (fun _ => ret {| p_hooks := hooks; p_opts := opts; p_fetch := fetch;
                            p_controller := controller;
                            p_context := inferDuplex options context |})) st0.
Proof.
  intros [hooks' __url opts' w1 fetch' _url body headers w2 method Hi Hf Hu Hb Hh Hm].
  unfold prepare.
  run_with (ext_ret (initializePlugins E url options) st _ _ Hi).
  rewrite Hf. cbn [lift]. run_ret.
  match goal with
  | |- context [bind newAbortController ?k ?s] =>
      rewrite (bind_val newAbortController k s (next_controller st)
                 {| world := w1; next_controller := S (next_controller st) |} [] eq_refl)
  end.
  cbv beta iota. rewrite Hu. cbn [lift]. run_ret. rewrite Hb. cbn [lift]. run_ret.
  match goal with
  | |- context [bind (ext ?f) ?k ?s] =>
      rewrite (bind_val (ext f) k s headers
                 {| world := w2; next_controller := S (next_controller st) |} []);
        [| unfold ext; cbn [world]; by rewrite Hh]
  end.
  cbv beta iota. rewrite Hm. cbn [lift]. run_ret.
  rewrite !prefixed_prefixed. cbn [app].
  match goal with
  | |- prefixed [] ?r = _ => by destruct r as [[o s'] l]
  end.
Qed.

(** The loop over a list of hooks followed by another. *)
Lemma run_onRequest_app (hs1 hs2 : list (option (value -> @Ext W (value * value)))) context st :
  run_onRequest (hs1 ++ hs2) context st =
    bind (run_onRequest hs1 context) (run_onRequest hs2) st.
Proof.
  revert context st. induction hs1 as [| [h |] hs1 IH]; intros context st;
    cbn [app run_onRequest].
  - by rewrite bind_ret.
  - rewrite !bind_assoc. apply bind_ext. intros _ st1.
    rewrite bind_assoc. apply bind_ext. intros [res context'] st2.
    destruct (is_object res); [| apply IH].
    rewrite bind_assoc. apply bind_ext. intros _ st3. apply IH.
  - apply IH.
Qed.

(** The loop up to a hook that returns an object goes on with that object. *)
Lemma run_onRequest_replaced (hs1 hs2 : list (option (value -> @Ext W (value * value))))
    h context st context1 st1 evs1 res context1' w2 :
  run_onRequest hs1 context st = (Val context1, st1, evs1) ->
  h context1 (world st1) = (Ret (res, context1'), w2) ->
  is_object res = true ->
  run_onRequest (hs1 ++ Some h :: hs2) context st =
    prefixed (evs1 ++ [EvOnRequest context1; EvContextReplaced res])
      (run_onRequest hs2 res (with_world st1 w2)).
Proof.
  intros H1 Hh Hobj. rewrite run_onRequest_app, (bind_val _ _ _ _ _ _ H1).
  cbn [run_onRequest]. run_emit.
  pose proof (ext_ret (h context1) st1 _ _ Hh) as Hext. run_with Hext.
  rewrite Hobj. run_emit. rewrite !prefixed_prefixed. by rewrite app_nil_r, <- app_assoc.
Qed.

(** Hooks that leave the context they are called on are all called on the
    context the loop starts with, which is the one it ends with. *)
Lemma run_onRequest_left (hs : list (option (value -> @Ext W (value * value))))
    context st context' st' evs :
  Forall leaves (defined hs) ->
  run_onRequest hs context st = (Val context', st', evs) ->
  context' = context /\ forall c, In (EvOnRequest c) evs -> c = context.
Proof.
  revert st evs. induction hs as [| [h |] hs IH]; intros st evs Hl; cbn [run_onRequest].
  - by intros [= <- <- <-].
  - apply Forall_cons in Hl as [Hh Hl]. intros H.
    apply bind_inv_val in H as (u & st1 & evs1 & evs2 & He & H & ->).
    injection He as <- <- <-.
    apply bind_inv_val in H as ([res c'] & st2 & evs3 & evs4 & Hr & H & ->).
    apply ext_inv_val in Hr as (w & Hr & -> & ->).
    apply Hh in Hr. unfold handed_on in Hr. cbn [fst snd] in Hr.
    destruct (is_object res).
    + subst res. apply bind_inv_val in H as (u' & st3 & evs5 & evs6 & He & H & ->).
      injection He as <- <- <-. apply (IH _ _ Hl) in H as [-> Hin].
      split; [done |]. intros c [[= ->] | [[=] | Hc]]; [done | by apply Hin].
    + subst c'. apply (IH _ _ Hl) in H as [-> Hin].
      split; [done |]. intros c [[= ->] | Hc]; [done | by apply Hin].
  - apply (IH _ _ Hl).
Qed.


Lemma inferDuplex_other options context k :
  k <> "duplex" ->
  get (inferDuplex options context) k = get context k
  /\ has (inferDuplex options context) k = has context k.
Proof.
  intros Hk. unfold inferDuplex.
  destruct (_ || _); [| done]. destruct (negb _); [| done].
  destruct context; try done. cbn. by rewrite lookup_insert_ne.
Qed.

Lemma inferDuplex_explicit options context :
  has context "duplex" = true -> inferDuplex options context = context.
Proof. intros H. unfold inferDuplex. rewrite H. by destruct (_ || _). Qed.

(** C7 (amended): when an [onRequest] hook returns an object, the loop goes
    on with that very object: the later hooks are run on it, and what they
    leave of it is, once the duplex inference has run, the context the
    transport is called with. When the later hooks leave the context they
    are called on, each of them is called on the object returned, and the
    transport receives it with no field of the context it replaced: only the
    [duplex] field may be added, by the duplex inference. *)
Theorem onRequest_replacement_wholesale fuel url options st hooks opts fetch controller
    context0 st0 hs1 h hs2 context1 st1 evs1 res context1' w2 :
  built E url options st hooks opts fetch controller context0 st0 ->
  onRequest hooks = hs1 ++ Some h :: hs2 ->
  run_onRequest hs1 context0 st0 = (Val context1, st1, evs1) ->
  h context1 (world st1) = (Ret (res, context1'), w2) ->
  is_object res = true ->
  run_onRequest (onRequest hooks) context0 st0 =
    prefixed (evs1 ++ [EvOnRequest context1; EvContextReplaced res])
      (run_onRequest hs2 res (with_world st1 w2))
  /\ forall final st3 evs3,
       run_onRequest hs2 res (with_world st1 w2) = (Val final, st3, evs3) ->
       (let evsP :=
          EvInvoke url options ::
            evs1 ++ [EvOnRequest context1; EvContextReplaced res] ++ evs3 ++
            (getTimeout opts controller st3).2 in
        transport_calls evsP = 0%nat
        /\ exists o st' evs',
             betterFetch E (S fuel) url options st =
               (o, st',
                evsP ++ EvFetch (get (inferDuplex options final) "url")
                          (inferDuplex options final) :: evs'))
       /\ (Forall leaves (defined hs2) ->
           final = res
           /\ (forall c, In (EvOnRequest c) evs3 -> c = res)
           /\ (forall k, k <> "duplex" ->
                 get (inferDuplex options final) k = get res k
                 /\ has (inferDuplex options final) k = has res k)
           /\ (has res "duplex" = true -> inferDuplex options final = res)).
Proof.
  intros Hb Hhs H1 Hh Hobj.
  assert (Hloop : run_onRequest (onRequest hooks) context0 st0 =
                    prefixed (evs1 ++ [EvOnRequest context1; EvContextReplaced res])
                      (run_onRequest hs2 res (with_world st1 w2))).
  { rewrite Hhs. by apply run_onRequest_replaced with (context1' := context1'). }
  split; [exact Hloop |]. intros final st3 evs3 H2. split.
  - destruct (getTimeout opts controller st3) as [[ot stT] evsT] eqn:HT.
    destruct (getTimeout_inv _ _ _ _ _ _ HT) as (-> & -> & _).
    assert (Hp : prepare E url options st =
                   (Val {| p_hooks := hooks; p_opts := opts; p_fetch := fetch;
                           p_controller := controller;
                           p_context := inferDuplex options final |}, st3,
                    (evs1 ++ [EvOnRequest context1; EvContextReplaced res]) ++ evs3 ++ evsT)).
    { rewrite (prepare_built _ _ _ _ _ _ _ _ _ Hb).
      match goal with
      | |- context [bind ?m ?k ?s] =>
          rewrite (bind_val m k s final st3
                     ((evs1 ++ [EvOnRequest context1; EvContextReplaced res]) ++ evs3))
      end.
      2: { by rewrite Hloop, H2. }
      cbv beta iota. run_with HT. cbn. by rewrite app_nil_r, <- !app_assoc. }
    destruct (betterFetch_calls_transport E fuel _ _ _ _ _ _ Hp) as (o & st' & evs' & Hrun).
    cbn [p_context] in Hrun. cbv zeta. cbn [snd]. rewrite <- !app_assoc in Hrun.
    split; [| exists o, st', evs'; rewrite Hrun; cbn [app];
              repeat (rewrite <- app_assoc; cbn [app]); reflexivity].
    destruct (emits_local _ _ _ _ _ _ (prepare_emits E url options) ltac:(by intros []) Hp)
      as (Ht & _).
    rewrite <- !app_assoc in Ht.
    change (EvInvoke url options :: ?l) with ([EvInvoke url options] ++ l).
    by rewrite transport_calls_app, Ht.
  - intros Hl. destruct (run_onRequest_left _ _ _ _ _ _ Hl H2) as [-> Hin].
    split; [done |]. split; [exact Hin |]. split.
    + intros k Hk. by apply inferDuplex_other.
    + intros Hd. by apply inferDuplex_explicit.
Qed.

End Request.

Section Signal.

Context {W : Type} (E : Env W).

Implicit Types (st : State W) (evs : list Event).

(** ** The cancellation signal and the timeout *)



(** ** Timers and controllers over a whole run *)
























(** The duplex inference fires for a body with a [pipe] method... *)
Lemma inferDuplex_pipe options context :
  is_function (get (get options "body") "pipe") = true ->
  has context "duplex" = false ->
  is_object context = true ->
  get (inferDuplex options context) "duplex" = VStr "half".
Proof.
  intros Hp Hd Ho. unfold inferDuplex. rewrite Hp, Hd, orb_true_r. cbn.
  destruct context; try discriminate Ho. cbn. by rewrite lookup_insert_eq.
Qed.

(** ... but not for one with a [pipeTo] method, which is looked for on the
    context itself. *)
Lemma inferDuplex_pipeTo options context :
  has context "pipeTo" = false ->
  is_function (get (get options "body") "pipe") = false ->
  inferDuplex options context = context.
Proof. intros Hp Hb. unfold inferDuplex. by rewrite Hp, Hb. Qed.

End Signal.

(** * The claims on concrete calls *)

Module Examples.
Import Demo.

Lemma no_hooks_return (E : Env unit) : error_hooks_return E noHooks.
Proof. intros c ec st. split; by eexists _, _. Qed.

Lemma refused_always_fails :
  always_fails E_refused "/users" (obj [("retry", VNum 2)]) 2.
Proof.
  intros k [[] n] Hk.
  destruct k as [| [| [| k]]]; [.. | lia];
    (eexists _, _, _, _, _, _; split;
       [eapply routed_network; reflexivity | apply no_hooks_return]).
Qed.

Lemma env_retry_as_specified hooks fetch texts plugin :
  retry_as_specified (env hooks fetch texts plugin).
Proof. intros retry p H. cbn. by rewrite H. Qed.

Lemma linear_retry_count_witness :
  exists o st' evs,
    betterFetch E_refused 3 "/users" (obj [("retry", VNum 2)]) st0 = (o, st', evs)
    /\ transport_calls evs = 3%nat
    /\ List.filter snd (retry_decisions evs) = [(VNum 0, true); (VNum 1, true)].
Proof.
  destruct (linear_retry_count E_refused 2 0 3 "/users" (obj [("retry", VNum 2)]) st0)
    as (o & st' & evs & Hrun & _ & Hcalls & _ & Hdec).
  - apply env_retry_as_specified.
  - reflexivity.
  - reflexivity.
  - apply refused_always_fails.
  - lia.
  - exists o, st', evs. auto.
Defined.


Lemma network_failure_handled_witness :
  exists st' evs,
    betterFetch E_refused 1 "/users" (obj []) st0 =
      (Val (result VNull (networkError E_refused connectionRefused)), st', evs)
    /\ get (networkError E_refused connectionRefused) "status" = VNum 0
    /\ get (networkError E_refused connectionRefused) "message" = VStr "fetch failed".
Proof.
  edestruct (network_failure_handled E_refused 0 "/users" (obj []) st0)
    as (Hrun & Hstatus & _ & Hmessage & _); [reflexivity | reflexivity | reflexivity |].
  eexists _, _. split; [rewrite Hrun; reflexivity |]. split; [exact Hstatus | exact Hmessage].
Defined.

Lemma abort_rethrown_witness :
  exists st' evs,
    betterFetch E_aborted 1 "/users" (obj [("retry", VNum 2)]) st0 = (Exn abortError, st', evs)
    /\ forallb (fun ev => negb (is_error_handling ev)) evs = true
    /\ transport_calls evs = 1%nat.
Proof.
  edestruct (abort_rethrown E_aborted 0 "/users" (obj [("retry", VNum 2)]) st0)
    as (evs & Hrun & _ & Hnone & Hcalls); [reflexivity | reflexivity | reflexivity |].
  eexists _, evs. split; [exact Hrun |]. split; [exact Hnone | exact Hcalls].
Defined.

(** The transport throws because the signal of the call is aborted, by a
    timeout signal or with a reason of the caller's: with a retry policy of
    two attempts the exception is handed to the [onError] hook, the call is
    retried twice, and it returns the structured error of a network
    failure. *)
Lemma abort_reason_converted :
  isAbortError (abortException None) = true
  /\ isAbortError timeoutError = false
  /\ isAbortError (abortException (Some cancelled)) = false
  /\ (exists v st' evs,
        betterFetch E_timedOut 3 "/users" (obj [("retry", VNum 2)]) st0 = (Val v, st', evs)
        /\ get v "data" = VNull
        /\ get (get v "error") "status" = VNum 0
        /\ get (get v "error") "cause" = timeoutError
        /\ length (List.filter is_onError evs) = 3%nat
        /\ transport_calls evs = 3%nat)
  /\ (exists v st' evs,
        betterFetch E_cancelled 3 "/users" (obj [("retry", VNum 2)]) st0 = (Val v, st', evs)
        /\ get v "data" = VNull
        /\ get (get v "error") "status" = VNum 0
        /\ get (get v "error") "cause" = cancelled
        /\ length (List.filter is_onError evs) = 3%nat
        /\ transport_calls evs = 3%nat).
Proof.
  split; [reflexivity |]. split; [reflexivity |]. split; [reflexivity |].
  split; eexists _, _, _; (split; [reflexivity |]); repeat split; vm_compute; reflexivity.
Qed.

Lemma head_returns_empty_data_witness :
  exists v st' evs,
    betterFetch E_ok 1 "/users" (obj [("method", VStr "HEAD")]) st0 = (Val v, st', evs)
    /\ get v "data" = VStr EmptyString
    /\ get v "error" = VNull
    /\ forallb (fun ev => negb (is_body_use ev)) evs = true.
Proof.
  edestruct (head_returns_empty_data E_ok 0 "/users" (obj [("method", VStr "HEAD")]) st0)
    as (v & evs & Hrun & _ & Hdata & Herror & _ & Hnone);
    [reflexivity | reflexivity | reflexivity | reflexivity | reflexivity |].
  eexists v, _, evs. split; [exact Hrun |]. split; [exact Hdata |].
  split; [exact Herror | exact Hnone].
Defined.

Lemma validation_failure_thrown_witness :
  truthy (get (obj [("output", obj [])]) "throw") = false
  /\ exists st' evs,
       betterFetch E_ok 1 "/users" (obj [("output", obj [])]) st0 = (Exn invalidOutput, st', evs)
       /\ forallb (fun ev => negb (is_error_handling ev)) evs = true.
Proof.
  split; [reflexivity |].
  edestruct (validation_failure_thrown E_ok 0 "/users" (obj [("output", obj [])]) st0)
    as (evs & Hrun & _ & Hnone);
    [reflexivity | reflexivity | reflexivity | reflexivity | reflexivity | reflexivity
    | reflexivity | reflexivity | reflexivity |].
  eexists _, evs. split; [exact Hrun | exact Hnone].
Defined.

(** The call [betterFetch("/users")] answered by [500 oops]: the text is not
    JSON-parseable, and the error returned is not the raw text. *)
Lemma raw_text_not_returned :
  isJSONParsable E_serverError "oops" = false
  /\ exists v st' evs,
       betterFetch E_serverError 1 "/users" (obj []) st0 = (Val v, st', evs)
       /\ get v "error" =
            obj [("status", VNum 500); ("statusText", VStr "Internal Server Error")]
       /\ get v "error" <> VStr "oops".
Proof.
  split; [reflexivity |]. eexists _, _, _. split; [reflexivity |].
  split; [vm_compute; reflexivity | discriminate].
Qed.

Lemma non_ok_error_shape_witness :
  exists st' evs,
    betterFetch E_serverError 1 "/users" (obj [("throw", VBool true)]) st0 =
      (Exn (BetterFetchError (VNum 500) (VStr "Internal Server Error") (VStr "oops")), st', evs)
    /\ List.filter is_text evs = [EvText serverError].
Proof.
  edestruct (non_ok_error_shape E_serverError 0 "/users" (obj [("throw", VBool true)]) st0)
    as (_ & Htext & _ & _ & _ & Hgive & Hraw);
    [reflexivity | reflexivity | reflexivity | reflexivity | reflexivity | reflexivity |].
  destruct (Hraw eq_refl) as [_ Hthrown].
  eexists _, _. split.
  - rewrite (Hgive _ [] eq_refl eq_refl), Hthrown. reflexivity.
  - rewrite app_nil_r. exact Htext.
Defined.


Lemma returnsNothing_leaves : leaves returnsNothing.
Proof. intros c w r w' [= <- <-]. reflexivity. Qed.

Lemma onRequest_replacement_wholesale_witness :
  exists evsP o st' evs',
    betterFetch E_replacing 1 "/users" (obj [("method", VStr "PUT")]) st0 =
      (o, st', evsP ++ EvFetch (VStr "/replaced") replacement :: evs')
    /\ transport_calls evsP = 0%nat
    /\ has replacement "method" = false.
Proof.
  edestruct (onRequest_replacement_wholesale E_replacing 0 "/users"
               (obj [("method", VStr "PUT")]) st0)
    with (hs1 := @nil (option (value -> unit -> Res (value * value) * unit)))
         (h := returnsReplacement) (hs2 := [Some returnsNothing])
    as (_ & Hrest);
    [eapply built_intro; reflexivity | reflexivity | reflexivity | reflexivity | reflexivity |].
  edestruct Hrest as ((Hcalls & o & st' & evs' & Hrun) & Hleft); [reflexivity |].
  destruct Hleft as (_ & _ & _ & Hsame).
  { constructor; [apply returnsNothing_leaves | constructor]. }
  eexists _, o, st', evs'. split; [exact Hrun |]. split; [exact Hcalls | reflexivity].
Defined.

(** Three calls where the first [onRequest] hook returns the replacement
    [{ url: "/replaced" }], and the context of the transport call is not
    that replacement. In the first the body has a [pipe] method and the
    second hook leaves the context: the duplex inference adds a [duplex]
    field, which the replacement does not set. In the second the next hook
    returns a replacement in turn, and the [url] of the first replacement is
    gone. In the third the next hook sets [credentials] on the context in
    place, a field the replacement does not set. *)
Lemma replacement_not_what_transport_gets :
  (forall c w, returnsReplacement c w = (Ret (replacement, c), w))
  /\ (exists evsP ctx o st' evs',
        betterFetch E_replacing 1 "/upload" (obj [("body", obj [("pipe", VFun 0)])]) st0 =
          (o, st', evsP ++ EvFetch (VStr "/replaced") ctx :: evs')
        /\ transport_calls evsP = 0%nat
        /\ In (EvContextReplaced replacement) evsP
        /\ has replacement "duplex" = false
        /\ has ctx "duplex" = true)
  /\ (exists evsP ctx o st' evs',
        betterFetch E_replacingTwice 1 "/users" (obj []) st0 =
          (o, st', evsP ++ EvFetch VUndefined ctx :: evs')
        /\ transport_calls evsP = 0%nat
        /\ In (EvContextReplaced replacement) evsP
        /\ has replacement "url" = true
        /\ has ctx "url" = false)
  /\ (exists evsP ctx o st' evs',
        betterFetch E_replacingThenChanging 1 "/users" (obj []) st0 =
          (o, st', evsP ++ EvFetch (VStr "/replaced") ctx :: evs')
        /\ transport_calls evsP = 0%nat
        /\ In (EvContextReplaced replacement) evsP
        /\ has replacement "credentials" = false
        /\ has ctx "credentials" = true).
Proof.
  split; [reflexivity |].
  split; [| split].
  - eexists [_; _; _; _], _, _, _, _. split; [reflexivity |]. split; [reflexivity |].
    split; [right; right; left; reflexivity |]. split; reflexivity.
  - eexists [_; _; _; _; _], _, _, _, _. split; [reflexivity |]. split; [reflexivity |].
    split; [right; right; left; reflexivity |]. split; reflexivity.
  - eexists [_; _; _; _], _, _, _, _. split; [reflexivity |]. split; [reflexivity |].
    split; [right; right; left; reflexivity |]. split; reflexivity.
Qed.

(** C8: the call [betterFetch("/upload", { method: "POST", body })] where
    [body] has a [pipeTo] method, as a web stream has, and no [duplex] is
    set: the context handed to the transport has no [duplex] field. *)
Theorem stream_body_without_duplex :
  exists p st' evs o st'' evs',
    prepare E_ok "/upload"
      (obj [("method", VStr "POST"); ("body", obj [("pipeTo", VFun 0)])]) st0 = (Val p, st', evs)
    /\ betterFetch E_ok 1 "/upload"
         (obj [("method", VStr "POST"); ("body", obj [("pipeTo", VFun 0)])]) st0 =
         (o, st'', EvInvoke "/upload"
                     (obj [("method", VStr "POST"); ("body", obj [("pipeTo", VFun 0)])])
                   :: evs ++ EvFetch (VStr "/upload") (p_context p) :: evs')
    /\ is_function (get (get (p_context p) "body") "pipeTo") = true
    /\ has (p_context p) "duplex" = false.
Proof.
  eexists _, _, _, _, _, _. split; [reflexivity |]. split; [reflexivity |].
  split; reflexivity.
Qed.

Lemma handleError_reads_caller_options_witness :
  exists p st' evs,
    prepare E_plugin "/users" (obj []) st0 = (Val p, st', evs)
    /\ p_opts p !! "retry" = Some (VNum 3)
    /\ p_opts p !! "throw" = Some (VBool true)
    /\ exists st'' evs',
         betterFetch E_plugin 1 "/users" (obj []) st0 =
           (Val (result VNull (networkError E_plugin connectionRefused)), st'', evs')
         /\ retry_decisions evs' = []
         /\ transport_calls evs' = 1%nat.
Proof.
  eexists _, _, _. split; [reflexivity |]. split; [reflexivity |]. split; [reflexivity |].
  edestruct (handleError_reads_caller_options E_plugin 0 "/users" (obj []) st0)
    as (_ & Hgive & _).
  - eapply routed_network; reflexivity.
  - reflexivity.
  - eexists _, _. split; [rewrite (Hgive eq_refl); reflexivity |].
    split; reflexivity.
Defined.




(** ** The scenarios of the specification *)

(** A call answered by [404 {"message":"not found"}], without [throw]. *)
Example not_found_scenario :
  (betterFetch E_notFound 1 "/users/1" (obj [("throw", VBool false)]) st0).1.1 =
    Val (result VNull
           (obj [("message", VStr "not found"); ("status", VNum 404);
                 ("statusText", VStr "Not Found")])).
Proof. vm_compute. reflexivity. Qed.

(** The delays of an exponential policy with base 100, factor 2, cap 1000. *)
Example exponential_delays :
  map (fun a =>
         getDelay (specRetryStrategy (W := unit) (Exponential 10 100 1000 (Some 2) None))
           (VNum a))
    [0; 1; 2; 3; 4; 5] =
  map VNum [100; 200; 400; 800; 1000; 1000].
Proof. reflexivity. Qed.

(** An allow-list of 502 and 503: no retry on 404, a retry on 503, and a
    retry when there is no response. *)
Example allow_list :
  let s := specRetryStrategy (W := unit) (Linear 3 0 (Some [502; 503])) in
  (shouldAttemptRetry s (VNum 0) (Some notFound) tt).1 = Ret false
  /\ (shouldAttemptRetry s (VNum 0)
        (Some {| body := 0; ok := false; status := 503;
                 statusText := "Service Unavailable" |}) tt).1 = Ret true
  /\ (shouldAttemptRetry s (VNum 0) None tt).1 = Ret true.
Proof. repeat split. Qed.

(** [{..."ab"}] is [{0: "a", 1: "b"}]. *)
Example spread_string :
  spread (VStr "ab") = list_to_map [("0", VStr "a"); ("1", VStr "b")].
Proof. vm_compute. reflexivity. Qed.

End Examples.

(** * The shape of every run *)

Section Completion.

Context {W : Type} (E : Env W).

Implicit Types (st : State W) (evs : list Event).

(** ** Computations that do not recurse *)

Lemma runs_ret {A} P (a : A) : runs (W := W) P (ret a).
Proof. by intros st o st' evs [= <- <- <-]. Qed.

Lemma runs_throw {A} P e : runs (W := W) P (throw (A := A) e).
Proof. by intros st o st' evs [= <- <- <-]. Qed.

Lemma runs_lift {A} P (r : Res A) : runs (W := W) P (lift r).
Proof. destruct r; [apply runs_ret | apply runs_throw]. Qed.

Lemma runs_ext {A} P (f : @Ext W A) : runs P (ext f).
Proof.
  intros st o st' evs. unfold ext.
  by destruct (f (world st)) as [[a|e] w]; intros [= <- <- <-].
Qed.

Lemma runs_emit P ev : P ev = true -> runs (W := W) P (emit ev).
Proof. intros HP st o st' evs [= <- <- <-]. cbn. by rewrite HP. Qed.

Lemma runs_bind {A B} P (m : @M W A) (k : A -> @M W B) :
  runs P m -> (forall a, runs P (k a)) -> runs P (bind m k).
Proof.
  intros Hm Hk st o st' evs H.
  apply bind_inv in H as [(a & st1 & evs1 & evs2 & H1 & H2 & ->) | [[H1 ->] | (e & H1 & ->)]].
  - apply Hm in H1 as [H1 _]. apply Hk in H2 as [H2 Ho].
    by rewrite forallb_app, H1, H2.
  - by apply Hm in H1 as [_ []].
  - by apply Hm in H1 as [H1 _].
Qed.

Lemma runs_weaken {A} (P Q : Event -> bool) (m : @M W A) :
  (forall ev, P ev = true -> Q ev = true) -> runs P m -> runs Q m.
Proof.
  intros HPQ Hm st o st' evs H. apply Hm in H as [H Ho]. split; [| done].
  rewrite forallb_forall in *. auto.
Qed.

Lemma runs_cloneIf P c r : P (EvClone r) = true -> runs P (cloneIf E c r).
Proof.
  intros HP. unfold cloneIf. destruct c; [| apply runs_ret].
  apply runs_bind; [by apply runs_emit | intros; apply runs_ext].
Qed.

Lemma runs_run_onRequest hs context : runs (W := W) is_onRequest_event (run_onRequest hs context).
Proof.
  revert context. induction hs as [| [h |] hs IH]; intros context; cbn [run_onRequest].
  - apply runs_ret.
  - apply runs_bind; [by apply runs_emit | intros _].
    apply runs_bind; [apply runs_ext | intros [res context']].
    destruct (is_object res); [| apply IH].
    apply runs_bind; [by apply runs_emit | intros _; apply IH].
  - apply IH.
Qed.

Lemma runs_run_onResponse hs cloneResponse context response :
  runs is_response_event (run_onResponse E hs cloneResponse context response).
Proof.
  revert response. induction hs as [| [h |] hs IH]; intros response; cbn [run_onResponse].
  - apply runs_ret.
  - apply runs_bind; [by apply runs_cloneIf | intros r'].
    apply runs_bind; [by apply runs_emit | intros _].
    apply runs_bind; [apply runs_ext | intros [| r | r]]; apply IH.
  - apply IH.
Qed.

Lemma runs_text response : runs is_response_event (text E response).
Proof. apply runs_bind; [by apply runs_emit | intros; apply runs_ext]. Qed.

Lemma runs_parse p t : runs is_response_event (parse E p t).
Proof.
  apply runs_bind; [by apply runs_emit | intros _].
  destruct (is_nullish p); apply runs_ext.
Qed.

Lemma runs_decode context response : runs is_response_event (decode E context response).
Proof.
  unfold decode. destruct (_ || _).
  - apply runs_bind; [apply runs_text | intros; apply runs_parse].
  - apply runs_bind; [by apply runs_emit | intros; apply runs_ext].
Qed.

Lemma runs_validate context data : runs is_response_event (validate E context data).
Proof.
  unfold validate. destruct (truthy (get context "output")); [| apply runs_ret].
  destruct (_ && _); [| apply runs_ret].
  apply runs_bind; [by apply runs_emit | intros; apply runs_ext].
Qed.

Lemma runs_run_onSuccess hs cloneResponse data context response :
  runs is_response_event (run_onSuccess E hs cloneResponse data context response).
Proof.
  induction hs as [| [h |] hs IH]; cbn [run_onSuccess].
  - apply runs_ret.
  - apply runs_bind; [by apply runs_cloneIf | intros r'].
    apply runs_bind; [by apply runs_emit | intros _].
    apply runs_bind; [apply runs_ext | intros _; apply IH].
  - apply IH.
Qed.

Lemma runs_run_onError hs cloneResponse errorContext :
  runs is_error_hook (run_onError E hs cloneResponse errorContext).
Proof.
  induction hs as [| [h |] hs IH]; cbn [run_onError].
  - apply runs_ret.
  - apply runs_bind.
    + destruct (ec_response errorContext) as [r |]; [| apply runs_ret].
      apply runs_bind; [by apply runs_cloneIf | intros; apply runs_ret].
    + intros response. apply runs_bind; [by apply runs_emit | intros _].
      apply runs_bind; [apply runs_ext | intros _; apply IH].
  - apply IH.
Qed.

Lemma runs_run_onRetry hs errorContext :
  runs (W := W) is_error_hook (run_onRetry hs errorContext).
Proof.
  induction hs as [| [h |] hs IH]; cbn [run_onRetry].
  - apply runs_ret.
  - destruct (ec_response errorContext) as [r |]; [| apply IH].
    apply runs_bind; [by apply runs_emit | intros _].
    apply runs_bind; [apply runs_ext | intros _; apply IH].
  - apply IH.
Qed.

End Completion.

Section Shape.

Context {W : Type} (E : Env W).

Implicit Types (st : State W) (evs : list Event).

(** ** The request phase, whatever its outcome *)

Lemma runs_nothing {A} (m : @M W A) st o st' evs :
  runs (fun _ => false) m -> m st = (o, st', evs) -> evs = [] /\ o <> OutOfFuel.
Proof. intros Hm H. apply Hm in H as [H Ho]. by destruct evs. Qed.

Lemma bind_failed {A B} P (m : @M W A) (k : A -> @M W B) :
  runs P m ->
  (forall a st o st' evs, k a st = (o, st', evs) -> (forall b, o <> Val b) ->
     forallb P evs = true) ->
  forall st o st' evs, bind m k st = (o, st', evs) -> (forall b, o <> Val b) ->
    forallb P evs = true.
Proof.
  intros Hm Hk st o st' evs H Ho.
  apply bind_inv in H as [(a & st1 & evs1 & evs2 & H1 & H2 & ->) | [[H1 ->] | (e & H1 & ->)]].
  - apply Hm in H1 as [H1 _]. rewrite forallb_app, H1. by eapply Hk.
  - by apply Hm in H1 as [H1 _].
  - by apply Hm in H1 as [H1 _].
Qed.

Lemma prepare_failed url options st o st' evs :
  prepare E url options st = (o, st', evs) -> (forall p, o <> Val p) ->
  forallb is_onRequest_event evs = true.
Proof.
  unfold prepare. revert st o st' evs.
  apply bind_failed; [apply runs_ext | intros [[hooks u] opts]].
  apply bind_failed; [apply runs_lift | intros fetch].
  apply bind_failed; [by intros st o st' evs [= <- <- <-] | intros controller].
  apply bind_failed; [apply runs_lift | intros _url].
  apply bind_failed; [apply runs_lift | intros body].
  apply bind_failed; [apply runs_ext | intros headers].
  apply bind_failed; [apply runs_lift | intros method].
  apply bind_failed; [apply runs_run_onRequest | intros context].
  intros st o st' evs H Ho.
  apply bind_inv in H as [(a & st1 & evs1 & evs2 & H1 & H2 & ->) | [[H1 ->] | (e & H1 & ->)]].
  - injection H2 as <- _ _. exfalso. by eapply Ho.
  - by apply getTimeout_inv in H1 as [[=] _].
  - by apply getTimeout_inv in H1 as [[=] _].
Qed.

(** Every run of lines 114-154 ends without exhausting the budget; its
    events are those of the [onRequest] hooks, followed when the phase
    completes, and only then, by the arming of the timer if there is one. *)
Lemma prepare_shape url options st o st' evs :
  prepare E url options st = (o, st', evs) ->
  o <> OutOfFuel /\
  exists evsH evsT,
    evs = evsH ++ evsT /\ forallb is_onRequest_event evsH = true /\
    match o with
    | Val p => evsT = [] \/ exists ms, evsT = [EvSetTimeout (p_controller p) ms]
    | _ => evsT = []
    end.
Proof.
  intros H. destruct o as [p | e |].
  - split; [done |].
    destruct (prepare_inv _ _ _ _ _ _ _ H)
      as (_url & headers & body & method & st1 & context & evsR & Hr & _ & Hc & ->).
    eexists evsR, _. split; [reflexivity |].
    split; [by eapply run_onRequest_emits |].
    rewrite Hc. destruct (is_nullish _); [by left | right; by eexists].
  - split; [done |]. exists evs, []. rewrite app_nil_r.
    split; [done |]. split; [| done]. by eapply prepare_failed.
  - exfalso.
    assert (Hruns : runs (W := W) is_request_phase (prepare E url options)).
    { unfold prepare.
      apply runs_bind; [apply runs_ext | intros [[hooks u] opts]].
      apply runs_bind; [apply runs_lift | intros fetch].
      apply runs_bind; [by intros ? ? ? ? [= <- <- <-] | intros controller].
      apply runs_bind; [apply runs_lift | intros _url].
      apply runs_bind; [apply runs_lift | intros body].
      apply runs_bind; [apply runs_ext | intros headers].
      apply runs_bind; [apply runs_lift | intros method].
      apply runs_bind; [| intros context].
      { eapply runs_weaken; [| apply runs_run_onRequest]. by intros []. }
      apply runs_bind; [| intros; apply runs_ret].
      unfold getTimeout. destruct (is_nullish _); [apply runs_ret | by apply runs_emit]. }
    by apply Hruns in H as [_ []].
Qed.

(** ** The error-handling routine, whatever its outcome *)

(** Every run of [handleError] either stays within the routine, and then it
    does not exhaust the budget, or reaches the retry delay and goes on as a
    run of [fetchFn] on the same url and the retry options. *)
Lemma handleError_inv errorContext hooks options url fetchFn cloneResponse throwError
    st o st' evs :
  handleError E errorContext hooks options url fetchFn cloneResponse throwError st
    = (o, st', evs) ->
  exists evsL,
    forallb is_handler_event evsL = true /\
    ((evs = evsL /\ o <> OutOfFuel /\
      (truthy (get options "retry") = false -> forallb is_error_hook evsL = true))
     \/ (exists d st1 evsF,
           evs = evsL ++ EvSleep d :: evsF /\
           truthy (get options "retry") = true /\
           fetchFn url (retry_options E options) st1 = (o, st', evsF))).
Proof.
  assert (Hweak : forall l, forallb is_error_hook l = true -> forallb is_handler_event l = true).
  { intros l. apply forallb_impl. intros ev Hev. unfold is_handler_event. by rewrite Hev. }
  unfold handleError. intros H.
  apply bind_inv in H as [(u & st1 & evs1 & evs2 & H1 & H & ->) | [[H1 ->] | (e & H1 & ->)]].
  2, 3: apply runs_run_onError in H1 as [H1 Ho]; exists evs; split; [by apply Hweak |];
        left; by repeat split.
  apply runs_run_onError in H1 as [H1 _].
  assert (Hgive : forall st2 o2 st2' evs2',
            (if truthy (get options "throw")
             then throw (BetterFetchError (get (ec_error errorContext) "status")
                           (get (ec_error errorContext) "statusText")
                           (nullish throwError (ec_error errorContext)))
             else ret (result VNull (ec_error errorContext))) st2 = (o2, st2', evs2') ->
            evs2' = [] /\ o2 <> OutOfFuel).
  { intros st2 o2 st2' evs2'. by destruct (truthy (get options "throw")); intros [= <- <- <-]. }
  destruct (truthy (get options "retry")) eqn:Hretry.
  - apply bind_inv in H as [(strategy & st2 & evs3 & evs4 & H2 & H & ->) | [[H2 ->] | (e & H2 & ->)]].
    2, 3: apply (runs_nothing _ _ _ _ _ (runs_lift _ _)) in H2 as [-> Ho];
          exists evs1; split; [by apply Hweak |]; left; rewrite app_nil_r; by repeat split.
    apply (runs_nothing _ _ _ _ _ (runs_lift _ _)) in H2 as [-> _].
    apply bind_inv in H as [(retry & st3 & evs5 & evs6 & H3 & H & ->) | [[H3 ->] | (e & H3 & ->)]].
    2, 3: apply (runs_nothing _ _ _ _ _ (runs_ext _ _)) in H3 as [-> Ho];
          exists evs1; split; [by apply Hweak |]; left; rewrite !app_nil_r; by repeat split.
    apply (runs_nothing _ _ _ _ _ (runs_ext _ _)) in H3 as [-> _].
    rewrite bind_emit in H. cbn [app].
    destruct retry.
    + destruct (bind (run_onRetry (onRetry hooks) errorContext) _ st3)
        as [[o4 st4] evs7] eqn:H4.
      cbn in H. injection H as <- <- <-.
      apply bind_inv in H4
        as [(u' & st5 & evs8 & evs9 & H5 & H4 & ->) | [[H5 ->] | (e & H5 & ->)]].
      2, 3: apply runs_run_onRetry in H5 as [H5 Ho]; eexists; split;
            [| left; split; [reflexivity | split; [done | done]]];
            rewrite !forallb_app; cbn; rewrite (Hweak _ H1), ?(Hweak _ H5); done.
      apply runs_run_onRetry in H5 as [H5 _].
      rewrite bind_emit in H4.
      destruct (fetchFn url _ st5) as [[o6 st6] evsF] eqn:H6. cbn in H4.
      injection H4 as <- <- <-.
      exists (evs1 ++ EvShouldAttemptRetry (nullish (get options "retryAttempt") (VNum 0))
                        (ec_response errorContext) true :: evs8).
      split.
      { rewrite !forallb_app. cbn. by rewrite (Hweak _ H1), (Hweak _ H5). }
      right. eexists _, st5, evsF. split; [| split; [done | exact H6]].
      by rewrite <- !app_assoc.
    + match type of H with
      | prefixed _ (?g _) = _ => destruct (g st3) as [[o4 st4] evs7] eqn:H4
      end.
      cbn in H. injection H as <- <- <-.
      apply Hgive in H4 as [-> Ho].
      eexists. split; [| left; split; [reflexivity | split; [done | done]]].
      rewrite forallb_app. cbn. by rewrite (Hweak _ H1).
  - apply Hgive in H as [-> Ho]. exists evs1. split; [by apply Hweak |].
    left. rewrite app_nil_r. by repeat split.
Qed.

End Shape.

Section Step.

Context {W : Type} (E : Env W).

Implicit Types (st : State W) (evs : list Event).

(** ** One attempt *)

Lemma handler_events_post evs :
  forallb is_handler_event evs = true -> forallb is_post_event evs = true.
Proof. apply forallb_impl. intros ev Hev. unfold is_post_event. by rewrite Hev, orb_true_r. Qed.

Lemma response_events_post evs :
  forallb is_response_event evs = true ->
  forallb is_post_event evs = true /\ forallb (fun ev => negb (is_decision ev)) evs = true.
Proof.
  intros H. split; (eapply forallb_impl; [| exact H]); intros ev Hev.
  - unfold is_post_event. by rewrite Hev.
  - by destruct ev.
Qed.

(** What follows the [onResponse] hooks for an OK response (lines 215-268)
    stays within the attempt. *)
Lemma runs_success hooks options context response :
  runs is_response_event
    (if negb (negb (is_string "HEAD" (get context "method")))
     then ret (result (VStr EmptyString) VNull)
     else
       bind (decode E context response) (fun data =>
       bind (validate E context data) (fun data =>
       bind (run_onSuccess E (onSuccess hooks)
               (get (get options "hookOptions") "cloneResponse") data context response)
         (fun _ => if truthy (get options "throw") then ret data
                   else ret (result data VNull))))).
Proof.
  destruct (negb _); [apply runs_ret |].
  apply runs_bind; [apply runs_decode | intros data].
  apply runs_bind; [apply runs_validate | intros data'].
  apply runs_bind; [apply runs_run_onSuccess | intros _].
  destruct (truthy _); apply runs_ret.
Qed.

(** Every run of [betterFetch] with some budget starts with an invocation
    and the trace of an attempt; then it either ends there, and not for lack
    of budget, or reaches the retry delay and goes on as a run of
    [betterFetch] on the same url and the retry options. *)
Lemma betterFetch_step fuel url options st o st' evs :
  betterFetch E (S fuel) url options st = (o, st', evs) ->
  exists evsA,
    attempt_trace evsA /\
    ((evs = EvInvoke url options :: evsA /\ o <> OutOfFuel /\
      (truthy (get options "retry") = false ->
       forallb (fun ev => negb (is_decision ev)) evsA = true))
     \/ (exists d st1 evsF,
           evs = EvInvoke url options :: evsA ++ EvSleep d :: evsF /\
           truthy (get options "retry") = true /\
           betterFetch E fuel url (retry_options E options) st1 = (o, st', evsF))).
Proof.
  cbn [betterFetch]. rewrite bind_emit.
  destruct (bind (prepare E url options) _ st) as [[o1 st1] evsB] eqn:HB.
  cbn [prefixed app]. intros [= -> -> <-].
  apply bind_inv in HB
    as [(p & st2 & evsP & evs2 & Hp & H & ->) | [[Hp ->] | (e & Hp & ->)]].
  2, 3: apply prepare_shape in Hp as (Ho & evsH & evsT & -> & HH & ->);
        rewrite app_nil_r; exists evsH; split; [by apply attempt_unsent |]; left;
        split; [done |]; split; [done |]; intros _;
        eapply forallb_impl; [| exact HH]; by intros [].
  apply prepare_shape in Hp as (_ & evsH & evsT & -> & HH & HT).
  set (u := get (p_context p) "url") in *. set (c := p_context p) in *.
  assert (Hlocal : forall evsQ o2,
            forallb is_post_event evsQ = true -> o2 <> OutOfFuel ->
            (truthy (get options "retry") = false ->
             forallb (fun ev => negb (is_decision ev)) evsQ = true) ->
            exists evsA,
              attempt_trace evsA /\
              ((EvInvoke url options ::
                  (evsH ++ evsT) ++ EvFetch u c :: EvClearTimeout (p_controller p) :: evsQ
                = EvInvoke url options :: evsA /\ o2 <> OutOfFuel /\
                (truthy (get options "retry") = false ->
                 forallb (fun ev => negb (is_decision ev)) evsA = true))
               \/ (exists d st1 evsF,
                     EvInvoke url options ::
                       (evsH ++ evsT) ++ EvFetch u c :: EvClearTimeout (p_controller p) :: evsQ
                     = EvInvoke url options :: evsA ++ EvSleep d :: evsF /\
                     truthy (get options "retry") = true /\
                     betterFetch E fuel url (retry_options E options) st1 = (o2, st', evsF)))).
  { intros evsQ o2 HQ Ho2 Hd. eexists. split; [by apply (attempt_sent evsH evsT u c) |].
    left. split; [by rewrite <- app_assoc |]. split; [done |]. intros Hr.
    rewrite !forallb_app. cbn [forallb is_decision negb andb].
    rewrite (Hd Hr), (forallb_impl is_onRequest_event (fun ev => negb (is_decision ev)) evsH
                       ltac:(by intros []) HH).
    destruct HT as [-> | [ms ->]]; done. }
  assert (Hhandle : forall errorContext cloneResponse throwError st3 evsQ evsE,
            forallb is_response_event evsQ = true ->
            handleError E errorContext (p_hooks p) options url (betterFetch E fuel)
              cloneResponse throwError st3 = (o, st', evsE) ->
            exists evsA,
              attempt_trace evsA /\
              ((EvInvoke url options ::
                  (evsH ++ evsT) ++
                  EvFetch u c :: EvClearTimeout (p_controller p) :: evsQ ++ evsE
                = EvInvoke url options :: evsA /\ o <> OutOfFuel /\
                (truthy (get options "retry") = false ->
                 forallb (fun ev => negb (is_decision ev)) evsA = true))
               \/ (exists d st1 evsF,
                     EvInvoke url options ::
                       (evsH ++ evsT) ++
                       EvFetch u c :: EvClearTimeout (p_controller p) :: evsQ ++ evsE
                     = EvInvoke url options :: evsA ++ EvSleep d :: evsF /\
                     truthy (get options "retry") = true /\
                     betterFetch E fuel url (retry_options E options) st1 = (o, st', evsF)))).
  { intros errorContext cloneResponse throwError st3 evsQ evsE HQ Hh.
    apply handleError_inv in Hh
      as (evsL & HL & [(-> & Ho & Hd) | (d & st4 & evsF & -> & Hr & Hrec)]).
    - apply response_events_post in HQ as [HQ HQd].
      apply Hlocal; [by rewrite forallb_app, HQ, handler_events_post | done |].
      intros Hr. rewrite forallb_app, HQd.
      by rewrite (forallb_impl is_error_hook (fun ev => negb (is_decision ev)) evsL
                    ltac:(by intros []) (Hd Hr)).
    - exists (evsH ++ evsT ++ EvFetch u c :: EvClearTimeout (p_controller p) :: evsQ ++ evsL).
      split.
      { apply response_events_post in HQ as [HQ _].
        apply attempt_sent; [done | done |]. by rewrite forallb_app, HQ, handler_events_post. }
      right. exists d, st4, evsF. split; [| done].
      f_equal. rewrite <- !app_assoc. cbn [app]. by rewrite <- !app_assoc. }
  rewrite (bind_val _ _ _ _ _ _ (try_fetch (p_fetch p u c) u c st2)) in H.
  destruct (p_fetch p u c (world st2)) as [[r0 | e] w2]; cbn [fst snd] in H;
    unfold clearTimeout in H; rewrite bind_emit, prefixed_prefixed in H.
  - (* the transport returned *)
    destruct (bind (run_onResponse E _ _ _ _) _ _) as [[o3 st3] evsR] eqn:HR.
    cbn in H. injection H as -> -> <-.
    apply bind_inv in HR
      as [(response & st4 & evs3 & evs4 & Hr & H & ->) | [[Hr ->] | (e & Hr & ->)]].
    2, 3: apply runs_run_onResponse in Hr as [Hr Ho];
          apply response_events_post in Hr as [Hr Hd]; by apply Hlocal.
    apply runs_run_onResponse in Hr as [Hr _].
    destruct (ok response).
    + apply runs_success in H as [H4 Ho].
      assert (H34 : forallb is_response_event (evs3 ++ evs4) = true)
        by by rewrite forallb_app, Hr, H4.
      apply response_events_post in H34 as [H34 Hd]. by apply Hlocal.
    + apply bind_inv in H
        as [(responseText & st5 & evs5 & evs6 & Ht & H & ->) | [[Ht ->] | (e & Ht & ->)]].
      2, 3: apply runs_text in Ht as [Ht Ho];
            assert (H34 : forallb is_response_event (evs3 ++ evs4) = true)
              by (by rewrite forallb_app, Hr, Ht);
            apply response_events_post in H34 as [H34 Hd]; by apply Hlocal.
      apply runs_text in Ht as [Ht _].
      assert (Hparse : runs is_response_event
                (if isJSONParsable E responseText
                 then parse E (get options "jsonParser") responseText else ret VNull)).
      { destruct (isJSONParsable E responseText); [apply runs_parse | apply runs_ret]. }
      apply bind_inv in H
        as [(errorObject & st6 & evs7 & evs8 & He & H & ->) | [[He ->] | (e & He & ->)]].
      2, 3: apply Hparse in He as [He Ho];
            assert (H34 : forallb is_response_event (evs3 ++ evs5 ++ evs6) = true)
              by (by rewrite !forallb_app, Hr, Ht, He);
            apply response_events_post in H34 as [H34 Hd]; by apply Hlocal.
      apply Hparse in He as [He _].
      rewrite !app_assoc. rewrite <- (app_assoc evs3).
      eapply Hhandle; [| exact H]. by rewrite !forallb_app, Hr, Ht, He.
  - (* the transport threw *)
    destruct (isAbortError e).
    + cbn in H. injection H as <- <- <-. by apply (Hlocal []).
    + match type of H with
      | prefixed _ (?h _) = _ => destruct (h (with_world st2 w2)) as [[o3 st3] evsE] eqn:Hh
      end.
      cbn in H. injection H as -> -> <-.
      eapply (Hhandle _ _ _ _ [] evsE); [done | exact Hh].
Qed.

End Step.

Section WholeRun.

Context {W : Type} (E : Env W).

Implicit Types (st : State W) (evs : list Event).

(** ** Reading the trace of an attempt *)

Lemma calls_app evs1 evs2 : calls (evs1 ++ evs2) = calls evs1 ++ calls evs2.
Proof. induction evs1 as [| ev evs1 IH]; [done |]. destruct ev; cbn; by rewrite ?IH. Qed.

Lemma no_calls (P : Event -> bool) evs :
  (forall ev, P ev = true -> is_invoke ev = false) -> forallb P evs = true -> calls evs = [].
Proof.
  intros HP. induction evs as [| ev evs IH]; [done |]. cbn [forallb].
  intros [Hev Hevs]%andb_true_iff. specialize (HP _ Hev). destruct ev; try done; by apply IH.
Qed.

Lemma no_transport_calls (P : Event -> bool) evs :
  (forall ev, P ev = true -> is_fetch ev = false) -> forallb P evs = true ->
  transport_calls evs = 0%nat.
Proof.
  intros HP H. unfold transport_calls. by rewrite (filter_none P is_fetch evs HP H).
Qed.

Lemma timers_cleared_quiet (P : Event -> bool) evs :
  (forall ev, P ev = true -> is_fetch ev = false /\ forall c ms, ev <> EvSetTimeout c ms) ->
  forallb P evs = true -> timers_cleared evs.
Proof.
  intros HP. induction evs as [| ev evs IH]; [done |]. cbn [forallb].
  intros [Hev Hevs]%andb_true_iff. destruct (HP _ Hev) as [Hf Ht].
  destruct ev; try discriminate Hf; cbn; try by apply IH.
  by destruct (Ht controller ms).
Qed.

Lemma timers_cleared_app evs1 evs2 :
  timers_cleared evs1 -> timers_cleared evs2 -> timers_cleared (evs1 ++ evs2).
Proof.
  intros H1 H2. induction evs1 as [| ev evs1 IH]; [done |].
  destruct ev; cbn in H1 |- *; try by apply IH.
  - destruct H1 as [Hnext H1]. split; [| by apply IH].
    destruct evs1 as [| [] [| [] evs1]]; done.
  - destruct H1 as [Hnext H1]. split; [| by apply IH].
    destruct evs1 as [| [] evs1]; done.
Qed.

Lemma hook_events_facts (P : Event -> bool) evs :
  (forall ev, P ev = true ->
     (is_invoke ev || is_sleep ev || is_fetch ev || is_clear ev) = false
     /\ forall c ms, ev <> EvSetTimeout c ms) ->
  forallb P evs = true ->
  calls evs = [] /\ List.filter is_sleep evs = [] /\ transport_calls evs = 0%nat
  /\ List.filter is_clear evs = [] /\ timers_cleared evs.
Proof.
  intros HP H.
  split; [eapply no_calls; [| exact H]; intros ev Hev; apply HP in Hev as [Hev _];
          by destruct ev |].
  split; [eapply filter_none; [| exact H]; intros ev Hev; apply HP in Hev as [Hev _];
          by destruct ev |].
  split; [eapply no_transport_calls; [| exact H]; intros ev Hev; apply HP in Hev as [Hev _];
          by destruct ev |].
  split; [eapply filter_none; [| exact H]; intros ev Hev; apply HP in Hev as [Hev _];
          by destruct ev |].
  eapply timers_cleared_quiet; [| exact H]. intros ev Hev. apply HP in Hev as [Hev Ht].
  split; [by destruct ev | exact Ht].
Qed.

Lemma attempt_trace_facts evsA :
  attempt_trace evsA ->
  calls evsA = [] /\ List.filter is_sleep evsA = [] /\ (transport_calls evsA <= 1)%nat
  /\ timers_cleared evsA
  /\ length (List.filter is_clear evsA) = transport_calls evsA.
Proof.
  intros [evsH HH | evsH evsT u c k evsQ HH HT HQ].
  - destruct (hook_events_facts is_onRequest_event evsH ltac:(by intros []) HH)
      as (-> & -> & -> & -> & Ht).
    repeat split; [lia | exact Ht].
  - destruct (hook_events_facts is_onRequest_event evsH ltac:(by intros []) HH)
      as (H1 & H2 & H3 & H4 & H5).
    destruct (hook_events_facts is_post_event evsQ ltac:(by intros []) HQ)
      as (Q1 & Q2 & Q3 & Q4 & Q5).
    assert (HTf : calls evsT = [] /\ List.filter is_sleep evsT = []
                  /\ transport_calls evsT = 0%nat /\ List.filter is_clear evsT = [])
      by (destruct HT as [-> | [ms ->]]; done).
    destruct HTf as (T1 & T2 & T3 & T4).
    rewrite !calls_app, !List.filter_app, !transport_calls_app, !length_app.
    cbn [calls List.filter is_sleep is_clear app length].
    change (transport_calls (EvFetch u c :: EvClearTimeout k :: evsQ))
      with (S (transport_calls evsQ)).
    rewrite H1, H2, H3, H4, Q1, Q2, Q3, Q4, T1, T2, T3, T4.
    split; [done |]. split; [done |]. split; [cbn; lia |]. split; [| done].
    apply timers_cleared_app; [exact H5 |].
    destruct HT as [-> | [ms ->]]; cbn; auto.
Qed.

(** X1: no timer is left armed, whatever the environment and the outcome:
    in every run of the pipeline an armed timer is followed by the transport
    call and by the clearing of the timer of the same controller, and every
    transport call is followed by the clearing of the timer before anything
    else happens. *)
Theorem timers_always_cleared fuel url options st :
  timers_cleared (betterFetch E fuel url options st).2.
Proof.
  revert url options st. induction fuel as [| fuel IH]; intros url options st; [done |].
  destruct (betterFetch E (S fuel) url options st) as [[o st'] evs] eqn:H. cbn [snd].
  apply betterFetch_step in H
    as (evsA & HA & [(-> & _) | (d & st1 & evsF & -> & _ & Hrec)]);
    apply attempt_trace_facts in HA as (_ & _ & _ & HA & _); cbn [timers_cleared].
  - exact HA.
  - apply timers_cleared_app; [exact HA |]. cbn [timers_cleared].
    specialize (IH url (retry_options E options) st1). by rewrite Hrec in IH.
Qed.

(** X2: without a retry policy in the caller's options the pipeline is
    invoked once: whatever the environment, a budget of one is enough for a
    result, the transport is called at most once, and no retry decision is
    evaluated and no delay taken. *)
Theorem no_retry_single_attempt fuel url options st :
  truthy (get options "retry") = false ->
  let '(o, _, evs) := betterFetch E (S fuel) url options st in
  o <> OutOfFuel
  /\ calls evs = [(url, options)]
  /\ (transport_calls evs <= 1)%nat
  /\ retry_decisions evs = []
  /\ List.filter is_sleep evs = [].
Proof.
  intros Hretry.
  destruct (betterFetch E (S fuel) url options st) as [[o st'] evs] eqn:H.
  apply betterFetch_step in H
    as (evsA & HA & [(-> & Ho & Hd) | (d & st1 & evsF & -> & Hr & _)]); [| congruence].
  apply attempt_trace_facts in HA as (Hc & Hs & Ht & _).
  split; [done |]. cbn [calls List.filter is_sleep]. rewrite Hc, Hs.
  split; [done |]. split; [exact Ht |]. split; [| done].
  cbn [retry_decisions]. specialize (Hd Hretry). clear -Hd.
  induction evsA as [| ev evsA IH]; [done |]. cbn [forallb] in Hd.
  apply andb_true_iff in Hd as [Hev Hd]. destruct ev; try discriminate Hev; cbn; by apply IH.
Qed.

(** X3: every invocation of a run is made on the url of the call, the first
    one on the caller's options and each later one on the options of the one
    before with [retryAttempt] incremented: nothing else changes from an
    attempt to the next. *)
Theorem invocations_chained fuel url options st :
  chained E url options (calls (betterFetch E fuel url options st).2).
Proof.
  revert options st. induction fuel as [| fuel IH]; intros options st; [done |].
  destruct (betterFetch E (S fuel) url options st) as [[o st'] evs] eqn:H. cbn [snd].
  apply betterFetch_step in H
    as (evsA & HA & [(-> & _) | (d & st1 & evsF & -> & _ & Hrec)]);
    apply attempt_trace_facts in HA as (Hc & _); cbn [calls chained].
  - by rewrite Hc.
  - rewrite calls_app, Hc. cbn [app calls]. split; [done |].
    specialize (IH (retry_options E options) st1). by rewrite Hrec in IH.
Qed.

Lemma concat_attempts evs : concat (attempts evs) = evs.
Proof.
  induction evs as [| ev evs IH]; [done |]. cbn [attempts].
  destruct (starts_with_invoke evs); [cbn; by rewrite IH |].
  destruct (attempts evs) as [| seg segs]; cbn in IH |- *; by rewrite <- IH.
Qed.

(** Events without an invocation stay in the attempt they follow. *)
Lemma attempts_cut ev evs rest :
  calls evs = [] ->
  rest = [] \/ (exists url options rest', rest = EvInvoke url options :: rest') ->
  attempts ((ev :: evs) ++ rest) = (ev :: evs) :: attempts rest.
Proof.
  intros Hc Hrest. revert ev. induction evs as [| ev' evs IH]; intros ev.
  - cbn [app attempts]. destruct Hrest as [-> | (url & options & rest' & ->)]; [done |].
    reflexivity.
  - assert (Hc' : calls evs = []) by (by destruct ev'; try done).
    change ((ev :: ev' :: evs) ++ rest) with (ev :: (ev' :: evs) ++ rest).
    cbn [attempts]. change (ev' :: evs ++ rest) with ((ev' :: evs) ++ rest).
    specialize (IH Hc' ev'). cbn [attempts] in IH. rewrite IH.
    by destruct ev'.
Qed.

Lemma delays_reinvoke_quiet ev evs :
  forallb (fun ev => negb (is_invoke ev || is_sleep ev)) evs = true ->
  is_sleep ev = false ->
  delays_reinvoke (ev :: evs).
Proof.
  revert ev. induction evs as [| ev' evs IH]; intros ev Hq Hev.
  - by destruct ev.
  - cbn [forallb] in Hq. apply andb_true_iff in Hq as [Hev' Hq].
    assert (Hs : is_sleep ev' = false) by (by destruct ev').
    specialize (IH ev' Hq Hs).
    destruct ev; try discriminate Hev; by destruct ev'.
Qed.

Lemma delays_reinvoke_retry ev evs d rest :
  forallb (fun ev => negb (is_invoke ev || is_sleep ev)) evs = true ->
  is_sleep ev = false ->
  rest = [] \/ (exists url options rest', rest = EvInvoke url options :: rest') ->
  delays_reinvoke rest ->
  delays_reinvoke (ev :: evs ++ EvSleep d :: rest).
Proof.
  intros Hq Hev Hrest Hr. revert ev Hev. induction evs as [| ev' evs IH]; intros ev Hev.
  - cbn [app]. assert (Hd : delays_reinvoke (EvSleep d :: rest)).
    { destruct Hrest as [-> | (url & options & rest' & ->)]; done. }
    by destruct ev.
  - cbn [forallb] in Hq. apply andb_true_iff in Hq as [Hev' Hq].
    assert (Hs : is_sleep ev' = false) by (by destruct ev').
    specialize (IH Hq ev' Hs). cbn [app] in IH |- *.
    destruct ev; try discriminate Hev; by destruct ev'.
Qed.

Lemma last_quiet ev evs d :
  forallb (fun ev => negb (is_invoke ev || is_sleep ev)) evs = true ->
  is_sleep ev = false ->
  last (ev :: evs) <> Some (EvSleep d).
Proof.
  revert ev. induction evs as [| ev' evs IH]; intros ev Hq Hev.
  - cbn. intros [= ->]. discriminate Hev.
  - cbn [forallb] in Hq. apply andb_true_iff in Hq as [Hev' Hq].
    rewrite last_cons_cons. apply IH; [done |]. by destruct ev'.
Qed.

Lemma attempt_trace_quiet evsA :
  attempt_trace evsA ->
  forallb (fun ev => negb (is_invoke ev || is_sleep ev)) evsA = true.
Proof.
  set (Q := fun ev => negb (is_invoke ev || is_sleep ev)).
  intros [evsH HH | evsH evsT u c k evsQ HH HT HQ].
  - eapply forallb_impl; [| exact HH]. by intros [].
  - rewrite !forallb_app. cbn [forallb].
    rewrite (forallb_impl is_onRequest_event Q evsH ltac:(by intros []) HH).
    rewrite (forallb_impl is_post_event Q evsQ ltac:(by intros []) HQ).
    by destruct HT as [-> | [ms ->]].
Qed.

(** A run of the pipeline has no event when the budget is exhausted at
    once, and starts with the invocation otherwise. *)
Lemma betterFetch_head fuel url options st :
  (betterFetch E fuel url options st).2 = []
  \/ exists rest, (betterFetch E fuel url options st).2 = EvInvoke url options :: rest.
Proof.
  destruct fuel as [| fuel]; [by left |]. right.
  destruct (betterFetch E (S fuel) url options st) as [[o st'] evs] eqn:H.
  apply betterFetch_step in H
    as (evsA & _ & [(-> & _) | (d & st1 & evsF & -> & _)]); by eexists.
Qed.

(** X4: the trace of a run, cut before each invocation, is a list of
    invocations of the pipeline, as many as the budget allows at most: each
    one calls the transport at most once, clears the timer once per
    transport call, and takes at most one retry delay. Every retry delay is
    followed at once by an invocation, which is the only way the pipeline is
    invoked again; a run that ends, with a result or an exception, does not
    end on a delay, so that it has made one invocation more than it has
    taken delays. *)
Theorem transport_once_per_invocation fuel url options st :
  let '(o, _, evs) := betterFetch E fuel url options st in
  Forall one_invocation (attempts evs)
  /\ length (attempts evs) = length (calls evs)
  /\ delays_reinvoke evs
  /\ (o <> OutOfFuel -> forall d, last evs <> Some (EvSleep d))
  /\ (transport_calls evs <= length (calls evs))%nat
  /\ (length (calls evs) <= fuel)%nat
  /\ length (List.filter is_clear evs) = transport_calls evs
  /\ (o <> OutOfFuel -> length (calls evs) = S (length (List.filter is_sleep evs))).
Proof.
  revert options st. induction fuel as [| fuel IH]; intros options st.
  { cbn. split; [constructor |]. repeat split; try lia; done. }
  pose proof (betterFetch_head fuel url (retry_options E options)) as Hhead.
  destruct (betterFetch E (S fuel) url options st) as [[o st'] evs] eqn:H.
  apply betterFetch_step in H
    as (evsA & HA & [(-> & Ho & _) | (d & st1 & evsF & -> & _ & Hrec)]);
    pose proof (attempt_trace_quiet _ HA) as Hq;
    apply attempt_trace_facts in HA as (Hc & Hs & Ht & _ & Hcl).
  - assert (Hone : one_invocation (EvInvoke url options :: evsA)).
    { exists url, options, evsA. rewrite Hs. cbn. repeat split; try done; lia. }
    pose proof (attempts_cut (EvInvoke url options) evsA [] Hc ltac:(by left)) as Hcut.
    rewrite app_nil_r in Hcut. rewrite Hcut.
    split; [by repeat constructor |].
    change (EvInvoke url options :: evsA) with ([EvInvoke url options] ++ evsA).
    rewrite transport_calls_app, calls_app, !List.filter_app, Hc, Hs, !length_app, Hcl.
    split; [done |]. split; [by apply delays_reinvoke_quiet |].
    split; [intros _ d'; by apply last_quiet |].
    cbn. repeat split; lia.
  - specialize (IH (retry_options E options) st1). specialize (Hhead st1).
    rewrite Hrec in IH, Hhead. cbn [snd] in Hhead.
    destruct IH as (IH0 & IHl & IHd & IHe & IH1 & IH2 & IH3 & IH4).
    assert (Hrest : evsF = [] \/ exists url' options' rest', evsF = EvInvoke url' options' :: rest').
    { destruct Hhead as [-> | [rest ->]]; [by left | right; by eexists _, _, _]. }
    assert (Hc' : calls (evsA ++ [EvSleep d]) = []) by (by rewrite calls_app, Hc).
    assert (Hone : one_invocation (EvInvoke url options :: evsA ++ [EvSleep d])).
    { exists url, options, (evsA ++ [EvSleep d]).
      rewrite transport_calls_app, !List.filter_app, !length_app, Hs, Hcl.
      cbn. repeat split; try done; lia. }
    pose proof (attempts_cut (EvInvoke url options) (evsA ++ [EvSleep d]) evsF Hc' Hrest)
      as Hcut.
    cbn [app] in Hcut. rewrite <- app_assoc in Hcut. cbn [app] in Hcut. rewrite Hcut.
    split; [by constructor |]. split.
    { cbn [length]. rewrite IHl.
      change (EvInvoke url options :: evsA ++ EvSleep d :: evsF)
        with ([EvInvoke url options] ++ evsA ++ [EvSleep d] ++ evsF).
      rewrite !calls_app, Hc. cbn. done. }
    split; [by apply delays_reinvoke_retry |].
    split.
    { intros Ho d'. specialize (IHe Ho).
      destruct Hhead as [-> | [rest ->]].
      - exfalso. destruct fuel; [cbn in Hrec; by injection Hrec as <- |].
        pose proof (betterFetch_head (S fuel) url (retry_options E options) st1) as Hh.
        rewrite Hrec in Hh. destruct Hh as [Hh | [rest Hh]]; [| done].
        clear -Hrec. apply betterFetch_step in Hrec
          as (evsB & _ & [([=] & _) | (d2 & st2 & evsG & [=] & _)]).
      - rewrite app_comm_cons, (cons_middle (EvSleep d)), app_assoc, last_app_cons.
        apply IHe. }
    change (EvInvoke url options :: evsA ++ EvSleep d :: evsF)
      with ([EvInvoke url options] ++ evsA ++ [EvSleep d] ++ evsF).
    rewrite !transport_calls_app, !calls_app, !List.filter_app, Hc, Hs, !length_app, Hcl.
    cbn. repeat split; try lia. intros Ho. specialize (IH4 Ho). lia.
Qed.

End WholeRun.

Section Paths.

Context {W : Type} (E : Env W).

Implicit Types (st : State W) (evs : list Event).

(** ** The success path *)

Lemma decode_events context response st o st' evs :
  decode E context response st = (o, st', evs) -> forallb is_decode_event evs = true.
Proof.
  revert st o st' evs. change (emits_only (W := W) is_decode_event (decode E context response)).
  unfold decode. destruct (_ || _).
  - apply emits_only_bind.
    + unfold text. apply emits_only_bind; [by apply emits_only_emit | intros; apply emits_only_ext].
    + intros t. eapply emits_only_weaken; [| apply parse_emits]. by intros [].
  - apply emits_only_bind; [by apply emits_only_emit | intros; apply emits_only_ext].
Qed.

(** The success hooks are called on the data, the context and the working
    response or a clone of it. *)
Lemma run_onSuccess_trace hs cloneResponse data context response st o st' evs :
  run_onSuccess E hs cloneResponse data context response st = (o, st', evs) ->
  forallb is_success_hook evs = true
  /\ forall c, In (EvOnSuccess c) evs -> sc_data c = data /\ sc_request c = context.
Proof.
  revert st evs. induction hs as [| [h |] hs IH]; intros st evs; cbn [run_onSuccess].
  - by intros [= <- <- <-].
  - intros H.
    apply bind_inv in H as [(r' & st1 & evs1 & evs2 & Hc & H & ->) | [[Hc ->] | (e & Hc & ->)]].
    2, 3: pose proof (emits_only_cloneIf E
                        is_clone
                        _ _ eq_refl _ _ _ _ Hc) as Hev;
          split; [eapply forallb_impl; [| exact Hev]; by intros [] |];
          intros c Hin; rewrite forallb_forall in Hev; by apply Hev in Hin.
    pose proof (emits_only_cloneIf E is_clone
                  _ _ eq_refl _ _ _ _ Hc) as Hev1.
    rewrite bind_emit in H.
    destruct (bind (ext _) _ st1) as [[o2 st2] evs3] eqn:H2. cbn in H.
    injection H as <- <- <-.
    assert (H3 : forallb is_success_hook evs3 = true
                 /\ forall c, In (EvOnSuccess c) evs3 -> sc_data c = data /\ sc_request c = context).
    { apply bind_inv in H2
        as [(u & st3 & evs4 & evs5 & He & H2 & ->) | [[He ->] | (e & He & ->)]].
      2, 3: by apply (runs_nothing _ _ _ _ _ (runs_ext _ _)) in He as [-> _].
      apply (runs_nothing _ _ _ _ _ (runs_ext _ _)) in He as [-> _]. by apply IH in H2. }
    destruct H3 as [H3 H3']. split.
    + rewrite forallb_app. cbn. rewrite H3, andb_true_r.
      eapply forallb_impl; [| exact Hev1]. by intros [].
    + intros c Hin. apply in_app_or in Hin as [Hin | [[= <-] | Hin]]; [| done | by apply H3'].
      rewrite forallb_forall in Hev1. by apply Hev1 in Hin.
  - apply IH.
Qed.

Lemma validate_skipped context data :
  truthy (get context "output") && negb (truthy (get context "disableValidation")) = false ->
  validate E context data = ret data.
Proof. intros H. unfold validate. rewrite H. by destruct (truthy (get context "output")). Qed.

(** X5: for an OK response with a body, when no output schema is configured
    or validation is disabled, the schema validator is not called: the data
    is the decoded body, handed to the success hooks and returned, bare when
    [throw] is set and as [{data, error: null}] otherwise. *)
Theorem success_without_validation fuel url options st p st1 evs1 r0 w2 response st3 evs3
    data st4 evs4 st5 evs5 :
  prepare E url options st = (Val p, st1, evs1) ->
  p_fetch p (get (p_context p) "url") (p_context p) (world st1) = (Ret r0, w2) ->
  run_onResponse E (onResponse (p_hooks p)) (get (get options "hookOptions") "cloneResponse")
    (p_context p) r0 (with_world st1 w2) = (Val response, st3, evs3) ->
  ok response = true ->
  is_string "HEAD" (get (p_context p) "method") = false ->
  decode E (p_context p) response st3 = (Val data, st4, evs4) ->
  truthy (get (p_context p) "output")
    && negb (truthy (get (p_context p) "disableValidation")) = false ->
  run_onSuccess E (onSuccess (p_hooks p)) (get (get options "hookOptions") "cloneResponse")
    data (p_context p) response st4 = (Val tt, st5, evs5) ->
  exists evs,
    betterFetch E (S fuel) url options st =
      (Val (if truthy (get options "throw") then data else result data VNull), st5, evs)
    /\ List.filter is_validate evs = []
    /\ (forall c, In (EvOnSuccess c) evs -> sc_data c = data)
    /\ get (result data VNull) "data" = data
    /\ get (result data VNull) "error" = VNull.
Proof.
  intros Hp Hf Hr Hok Hm Hd Hv Hs. eexists.
  split; [| split; [| split; [| apply result_fields]]].
  - rewrite (betterFetch_response E _ _ _ _ _ _ _ _ _ _ _ _ Hp Hf Hr Hok).
    cbv zeta. rewrite Hm. cbn [negb]. run_with Hd.
    rewrite (validate_skipped _ _ Hv). run_ret. run_with Hs.
    destruct (truthy (get options "throw")); cbn; by rewrite ?app_nil_r, <- ?app_assoc.
  - apply run_onSuccess_trace in Hs as [Hs _].
    cbn [List.filter is_validate]. rewrite !List.filter_app. cbn [List.filter is_validate].
    rewrite (filter_none is_request_phase is_validate evs1 ltac:(by intros [])
               (prepare_emits E _ _ _ _ _ _ Hp)).
    rewrite (filter_none is_response_hook is_validate evs3 ltac:(by intros [])
               (run_onResponse_emits E _ _ _ _ _ _ _ _ Hr)).
    rewrite (filter_none is_decode_event is_validate evs4 ltac:(by intros [])
               (decode_events _ _ _ _ _ _ Hd)).
    by rewrite (filter_none is_success_hook is_validate evs5 ltac:(by intros []) Hs).
  - intros c Hin. apply run_onSuccess_trace in Hs as [_ Hs].
    pose proof (prepare_emits E _ _ _ _ _ _ Hp) as H1.
    pose proof (run_onResponse_emits E _ _ _ _ _ _ _ _ Hr) as H3.
    pose proof (decode_events _ _ _ _ _ _ Hd) as H4.
    rewrite forallb_forall in H1, H3, H4.
    destruct Hin as [[=] | Hin].
    apply in_app_or in Hin as [Hin | Hin]; [by apply H1 in Hin |].
    destruct Hin as [[=] | [[=] | Hin]].
    apply in_app_or in Hin as [Hin | Hin]; [by apply H3 in Hin |].
    apply in_app_or in Hin as [Hin | Hin]; [by apply H4 in Hin |].
    by apply Hs in Hin as [? _].
Qed.

(** X6: with an output schema and validation enabled, the value the
    validator returns replaces the decoded body: it is the data every
    success hook receives and the data returned. *)
Theorem validated_data_returned fuel url options st p st1 evs1 r0 w2 response st3 evs3
    data st4 evs4 data' w5 st6 evs6 :
  prepare E url options st = (Val p, st1, evs1) ->
  p_fetch p (get (p_context p) "url") (p_context p) (world st1) = (Ret r0, w2) ->
  run_onResponse E (onResponse (p_hooks p)) (get (get options "hookOptions") "cloneResponse")
    (p_context p) r0 (with_world st1 w2) = (Val response, st3, evs3) ->
  ok response = true ->
  is_string "HEAD" (get (p_context p) "method") = false ->
  decode E (p_context p) response st3 = (Val data, st4, evs4) ->
  truthy (get (p_context p) "output") = true ->
  truthy (get (p_context p) "disableValidation") = false ->
  parseStandardSchema E (get (p_context p) "output") data (world st4) = (Ret data', w5) ->
  run_onSuccess E (onSuccess (p_hooks p)) (get (get options "hookOptions") "cloneResponse")
    data' (p_context p) response (with_world st4 w5) = (Val tt, st6, evs6) ->
  betterFetch E (S fuel) url options st =
    (Val (if truthy (get options "throw") then data' else result data' VNull), st6,
     EvInvoke url options :: evs1 ++
       [EvFetch (get (p_context p) "url") (p_context p); EvClearTimeout (p_controller p)] ++
       evs3 ++ evs4 ++ [EvValidate (get (p_context p) "output") data] ++ evs6)
  /\ (forall c, In (EvOnSuccess c) evs6 -> sc_data c = data')
  /\ get (result data' VNull) "data" = data'
  /\ get (result data' VNull) "error" = VNull.
Proof.
  intros Hp Hf Hr Hok Hm Hd Ho Hv He Hs. split; [| split; [| apply result_fields]].
  - rewrite (betterFetch_response E _ _ _ _ _ _ _ _ _ _ _ _ Hp Hf Hr Hok).
    cbv zeta. rewrite Hm. cbn [negb]. run_with Hd.
    match goal with
    | |- context [bind (validate E ?c ?d) ?k ?s] =>
        rewrite (bind_val (validate E c d) k s data' (with_world st4 w5)
                   [EvValidate (get (p_context p) "output") data])
    end.
    2: { unfold validate. rewrite Ho, Hv. cbn [negb andb]. run_emit.
         by rewrite (ext_ret _ _ _ _ He). }
    cbv beta. run_with Hs.
    destruct (truthy (get options "throw")); cbn; by rewrite ?app_nil_r, <- ?app_assoc.
  - intros c Hin. apply run_onSuccess_trace in Hs as [_ Hs]. by apply Hs in Hin as [? _].
Qed.

End Paths.

Section Failures.

Context {W : Type} (E : Env W).

Implicit Types (st : State W) (evs : list Event).

(** ** Exceptions outside the transport call *)

(** X7: an exception raised before the transport call, by the plugin
    initialisation, a request builder or an [onRequest] hook, is thrown by
    the pipeline as it is: the transport is not called, no timer is armed,
    and the error-handling routine is not entered, so that no [onError] hook
    runs and no retry is decided, whatever the retry policy. *)
Theorem early_failure_thrown fuel url options st e st' evs :
  prepare E url options st = (Exn e, st', evs) ->
  betterFetch E (S fuel) url options st = (Exn e, st', EvInvoke url options :: evs)
  /\ forallb is_onRequest_event evs = true.
Proof.
  intros Hp. split.
  - cbn [betterFetch]. run_emit.
    match goal with
    | |- context [bind ?m ?k ?s] => rewrite (bind_exn m k s _ _ _ Hp)
    end.
    reflexivity.
  - by eapply prepare_failed.
Qed.

(** X8: an exception raised by an [onResponse] hook is thrown by the
    pipeline as it is, after the timer is cleared: it is not handed to the
    error-handling routine, whatever the response and the retry policy. *)
Theorem response_hook_failure_thrown fuel url options st p st1 evs1 r0 w2 e st3 evs3 :
  prepare E url options st = (Val p, st1, evs1) ->
  p_fetch p (get (p_context p) "url") (p_context p) (world st1) = (Ret r0, w2) ->
  run_onResponse E (onResponse (p_hooks p)) (get (get options "hookOptions") "cloneResponse")
    (p_context p) r0 (with_world st1 w2) = (Exn e, st3, evs3) ->
  exists evs,
    betterFetch E (S fuel) url options st = (Exn e, st3, evs)
    /\ evs = EvInvoke url options :: evs1 ++
               [EvFetch (get (p_context p) "url") (p_context p);
                EvClearTimeout (p_controller p)] ++ evs3
    /\ forallb (fun ev => negb (is_error_handling ev)) evs = true.
Proof.
  intros Hp Hf Hr. eexists. split; [| split; [reflexivity |]].
  - cbn [betterFetch]. run_emit. run_with Hp.
    run_with (try_fetch (p_fetch p (get (p_context p) "url") (p_context p))
                (get (p_context p) "url") (p_context p) st1).
    rewrite Hf. cbn [fst snd]. unfold clearTimeout. run_emit.
    match goal with
    | |- context [bind ?m ?k ?s] => rewrite (bind_exn m k s _ _ _ Hr)
    end.
    cbn. by rewrite ?app_nil_r, <- ?app_assoc.
  - cbn [forallb]. rewrite !forallb_app. cbn [forallb].
    rewrite (prepare_events E (fun ev => negb (is_error_handling ev)) _ _ _ _ _ _
               ltac:(by intros []) Hp).
    rewrite (run_onResponse_events E (fun ev => negb (is_error_handling ev)) _ _ _ _ _ _ _ _
               ltac:(by intros []) Hr).
    done.
Qed.

(** X9: when the text of a response that is not OK cannot be read, the
    pipeline throws the exception of the read: the HTTP failure does not
    reach the error-handling routine, no [onError] hook runs and no retry is
    decided. *)
Theorem unreadable_error_body_thrown fuel url options st p st1 evs1 r0 w2 response st3 evs3
    e w4 :
  prepare E url options st = (Val p, st1, evs1) ->
  p_fetch p (get (p_context p) "url") (p_context p) (world st1) = (Ret r0, w2) ->
  run_onResponse E (onResponse (p_hooks p)) (get (get options "hookOptions") "cloneResponse")
    (p_context p) r0 (with_world st1 w2) = (Val response, st3, evs3) ->
  ok response = false ->
  response_text E response (world st3) = (Thr e, w4) ->
  exists evs,
    betterFetch E (S fuel) url options st = (Exn e, with_world st3 w4, evs)
    /\ evs = EvInvoke url options :: evs1 ++
               [EvFetch (get (p_context p) "url") (p_context p);
                EvClearTimeout (p_controller p)] ++ evs3 ++ [EvText response]
    /\ forallb (fun ev => negb (is_error_handling ev)) evs = true.
Proof.
  intros Hp Hf Hr Hok Ht. eexists. split; [| split; [reflexivity |]].
  - cbn [betterFetch]. run_emit. run_with Hp.
    run_with (try_fetch (p_fetch p (get (p_context p) "url") (p_context p))
                (get (p_context p) "url") (p_context p) st1).
    rewrite Hf. cbn [fst snd]. unfold clearTimeout. run_emit. run_with Hr. rewrite Hok.
    match goal with
    | |- context [bind (text E response) ?k ?s] =>
        rewrite (bind_exn (text E response) k s e (with_world st3 w4) [EvText response])
    end.
    2: { unfold text. run_emit. by rewrite (ext_thr _ _ _ _ Ht). }
    cbn. by rewrite ?app_nil_r, <- ?app_assoc.
  - cbn [forallb]. rewrite !forallb_app. cbn [forallb].
    rewrite (prepare_events E (fun ev => negb (is_error_handling ev)) _ _ _ _ _ _
               ltac:(by intros []) Hp).
    rewrite (run_onResponse_events E (fun ev => negb (is_error_handling ev)) _ _ _ _ _ _ _ _
               ltac:(by intros []) Hr).
    done.
Qed.

(** ** The hooks of the error-handling routine *)

Lemma run_onRetry_no_response hs errorContext :
  ec_response errorContext = None -> run_onRetry (W := W) hs errorContext = ret tt.
Proof.
  intros Hn. induction hs as [| [h |] hs IH]; cbn [run_onRetry]; [done | | done].
  by rewrite Hn.
Qed.

(** X10: the retry of a network failure calls no [onRetry] hook: the retry
    decision is made without a response, and when it is positive the delay
    of the strategy is taken and the pipeline re-invoked, whatever [onRetry]
    hooks are registered. *)
Theorem network_retry_skips_onRetry fuel url options st p st1 evs1 fetchError w2 st3 evs3
    strategy w4 :
  prepare E url options st = (Val p, st1, evs1) ->
  p_fetch p (get (p_context p) "url") (p_context p) (world st1) = (Thr fetchError, w2) ->
  isAbortError fetchError = false ->
  run_onError E (onError (p_hooks p)) VUndefined
    {| ec_response := None; ec_responseText := None;
       ec_request := p_context p; ec_error := networkError E fetchError |}
    (with_world st1 w2) = (Val tt, st3, evs3) ->
  truthy (get options "retry") = true ->
  createRetryStrategy E (get options "retry") = Ret strategy ->
  shouldAttemptRetry strategy (nullish (get options "retryAttempt") (VNum 0)) None (world st3)
    = (Ret true, w4) ->
  let attempt := nullish (get options "retryAttempt") (VNum 0) in
  betterFetch E (S fuel) url options st =
    prefixed
      (EvInvoke url options :: evs1 ++
         [EvFetch (get (p_context p) "url") (p_context p); EvClearTimeout (p_controller p)] ++
         evs3 ++ [EvShouldAttemptRetry attempt None true; EvSleep (getDelay strategy attempt)])
      (betterFetch E fuel url (retry_options E options) (with_world st3 w4))
  /\ List.filter is_onRetry
       (EvInvoke url options :: evs1 ++
          [EvFetch (get (p_context p) "url") (p_context p); EvClearTimeout (p_controller p)] ++
          evs3 ++ [EvShouldAttemptRetry attempt None true; EvSleep (getDelay strategy attempt)])
     = [].
Proof.
  intros Hp Hf Ha He Hr Hs Hd attempt. split.
  - rewrite (routed_run E _ _ _ _ _ _ _ _ _ fuel (routed_network E _ _ _ _ _ _ _ _ Hp Hf Ha)).
    rewrite (handleError_decision E _ _ _ _ _ _ _ _ _ _ _ _ _ He Hr Hs Hd).
    rewrite run_onRetry_no_response by done. run_ret. run_emit.
    rewrite !prefixed_prefixed. f_equal. cbn. by rewrite <- !app_assoc.
  - cbn [List.filter is_onRetry]. rewrite !List.filter_app. cbn [List.filter is_onRetry app].
    rewrite (filter_none is_request_phase is_onRetry evs1 ltac:(by intros [])
               (prepare_emits E _ _ _ _ _ _ Hp)).
    assert (H3 : forallb is_onError evs3 = true).
    { clear -He. revert He. generalize (with_world st1 w2). generalize evs3.
      induction (onError (p_hooks p)) as [| [h |] hs IH]; intros evs st; cbn [run_onError].
      - by intros [= <- <-].
      - cbn [ec_response]. rewrite bind_ret, bind_emit.
        destruct (bind (ext _) _ st) as [[o2 st2] evs2] eqn:H2. cbn.
        intros [= -> -> <-].
        apply bind_inv_val in H2 as (u & st4 & evs4 & evs5 & Hx & H2 & ->).
        apply ext_inv_val in Hx as (w & _ & -> & ->). cbn. by eapply IH.
      - apply IH. }
    by rewrite (filter_none is_onError is_onRetry evs3 ltac:(by intros []) H3).
Qed.

End Failures.

Section Hooks.

Context {W : Type} (E : Env W).

Implicit Types (st : State W) (evs : list Event).

Lemma errorContext_eta (c : ErrorContext) :
  {| ec_response := ec_response c; ec_responseText := ec_responseText c;
     ec_request := ec_request c; ec_error := ec_error c |} = c.
Proof. by destruct c. Qed.

(** Without a clone of the response, the loop is the sequence of the calls
    of the defined hooks on the error context. *)
Lemma run_onError_sequence hs cloneResponse errorContext st st' evs :
  truthy cloneResponse = false ->
  run_onError E hs cloneResponse errorContext st = (Val tt, st', evs) ->
  st' = with_world st (foldl (fun w h => (h errorContext w).2) (world st) (defined hs))
  /\ evs = map (fun _ => EvOnError errorContext) (defined hs).
Proof.
  intros Hf. revert st evs. induction hs as [| [h |] hs IH]; intros st evs;
    cbn [run_onError].
  - intros [= <- <-]. by destruct st.
  - intros H.
    apply bind_inv_val in H as (response & st1 & evs1 & evs2 & Hc & H & ->).
    assert (Hsame : response = ec_response errorContext /\ st1 = st /\ evs1 = []).
    { destruct (ec_response errorContext) as [r |].
      - rewrite Hf in Hc. by injection Hc as <- <- <-.
      - by injection Hc as <- <- <-. }
    destruct Hsame as (-> & -> & ->). rewrite errorContext_eta in H.
    apply bind_inv_val in H as (u & st2 & evs3 & evs4 & He & H & ->).
    injection He as <- <- <-.
    apply bind_inv_val in H as (u' & st3 & evs5 & evs6 & Hx & H & ->).
    apply ext_inv_val in Hx as (w & Hx & -> & ->).
    apply IH in H as [-> ->]. cbn. by rewrite Hx.
  - apply IH.
Qed.

(** X11: when the [onError] loop completes, every defined hook has been
    called once, in the order of the list, undefined entries being skipped:
    as many calls are made as there are defined hooks, each is handed the
    error value, the request and the response text of the error context,
    and, when no clone of the response is asked for, the error context
    itself; the world the loop leaves is then the one obtained by calling
    the defined hooks one after the other, in the order of the list. *)
Theorem onError_hooks_all_called hs cloneResponse errorContext st st' evs :
  run_onError E hs cloneResponse errorContext st = (Val tt, st', evs) ->
  length (List.filter is_onError evs) = length (defined hs)
  /\ (forall c, In (EvOnError c) evs ->
        ec_error c = ec_error errorContext
        /\ ec_request c = ec_request errorContext
        /\ ec_responseText c = ec_responseText errorContext
        /\ (ec_response errorContext = None -> ec_response c = None))
  /\ (truthy cloneResponse = false ->
      evs = map (fun _ => EvOnError errorContext) (defined hs)
      /\ world st' = foldl (fun w h => (h errorContext w).2) (world st) (defined hs)
      /\ next_controller st' = next_controller st).
Proof.
  intros Hrun.
  assert (Hseq : truthy cloneResponse = false ->
                 evs = map (fun _ => EvOnError errorContext) (defined hs)
                 /\ world st' = foldl (fun w h => (h errorContext w).2) (world st) (defined hs)
                 /\ next_controller st' = next_controller st).
  { intros Hf. by destruct (run_onError_sequence _ _ _ _ _ _ Hf Hrun) as [-> ->]. }
  cut (length (List.filter is_onError evs) = length (defined hs)
       /\ (forall c, In (EvOnError c) evs ->
             ec_error c = ec_error errorContext
             /\ ec_request c = ec_request errorContext
             /\ ec_responseText c = ec_responseText errorContext
             /\ (ec_response errorContext = None -> ec_response c = None))).
  { intros [H1 H2]. split; [exact H1 | split; [exact H2 | exact Hseq]]. }
  clear Hseq. revert Hrun.
  revert st evs. induction hs as [| [h |] hs IH]; intros st evs; cbn [run_onError].
  - by intros [= <- <-].
  - intros H.
    apply bind_inv_val in H as (response & st1 & evs1 & evs2 & Hc & H & ->).
    rewrite bind_emit in H.
    destruct (bind (ext _) _ st1) as [[o2 st2] evs3] eqn:H2. cbn in H.
    injection H as -> -> <-.
    apply bind_inv_val in H2 as (u & st3 & evs4 & evs5 & Hx & H2 & ->).
    apply ext_inv_val in Hx as (w & _ & -> & ->).
    apply IH in H2 as (IH1 & IH2). cbn [app].
    assert (Hclone : forallb is_clone evs1 = true
                     /\ (ec_response errorContext = None -> response = None)).
    { destruct (ec_response errorContext) as [r |].
      - apply bind_inv_val in Hc as (r' & st4 & evs6 & evs7 & Hc & Hret & ->).
        injection Hret as <- <- <-. rewrite app_nil_r.
        split; [by eapply (emits_only_cloneIf E) | done].
      - by injection Hc as <- <- <-. }
    destruct Hclone as (Hev & Hnone).
    rewrite List.filter_app.
    rewrite (filter_none is_clone is_onError evs1 ltac:(by intros []) Hev).
    split; [cbn; by rewrite IH1 |].
    intros c Hin. apply in_app_or in Hin as [Hin | [[= <-] | Hin]]; [| done | by apply IH2].
    rewrite forallb_forall in Hev. by apply Hev in Hin.
  - apply IH.
Qed.

(** X12: for a response that is not OK whose text is JSON-parseable, when
    the routine gives up with [throw] set, the error thrown has the status
    and status text of the response and its body is the parsed value itself,
    not the error object that merges it with [status] and [statusText]; the
    error object is the body only when the parsed value is null or
    undefined. *)
Theorem http_error_thrown_body fuel url options st p st1 evs1 r0 w2 response st3 evs3
    responseText w4 errorObject st5 evs5 st6 evs6 :
  prepare E url options st = (Val p, st1, evs1) ->
  p_fetch p (get (p_context p) "url") (p_context p) (world st1) = (Ret r0, w2) ->
  run_onResponse E (onResponse (p_hooks p)) (get (get options "hookOptions") "cloneResponse")
    (p_context p) r0 (with_world st1 w2) = (Val response, st3, evs3) ->
  ok response = false ->
  response_text E response (world st3) = (Ret responseText, w4) ->
  isJSONParsable E responseText = true ->
  parse E (get options "jsonParser") responseText (with_world st3 w4)
    = (Val errorObject, st5, evs5) ->
  let error :=
    VObj KObject
      (<["statusText" := VStr (statusText response)]>
        (<["status" := VNum (status response)]> (spread errorObject))) in
  run_onError E (onError (p_hooks p)) (get (get options "hookOptions") "cloneResponse")
    {| ec_response := Some response; ec_responseText := Some responseText;
       ec_request := p_context p; ec_error := error |} st5 = (Val tt, st6, evs6) ->
  truthy (get options "retry") = false ->
  truthy (get options "throw") = true ->
  (betterFetch E (S fuel) url options st).1.1 =
    Exn (BetterFetchError (VNum (status response)) (VStr (statusText response))
           (if is_nullish errorObject then error else errorObject)).
Proof.
  intros Hp Hf Hr Hok Ht Hj He error Hh Hretry Hthrow.
  assert (He' : (if isJSONParsable E responseText
                 then parse E (get options "jsonParser") responseText else ret VNull)
                  (with_world st3 w4) = (Val errorObject, st5, evs5)) by by rewrite Hj.
  rewrite (routed_run E _ _ _ _ _ _ _ _ _ fuel
             (routed_http E url options st p st1 evs1 r0 w2 response st3 evs3 responseText w4
                errorObject st5 evs5 Hp Hf Hr Hok Ht He')).
  rewrite (handleError_no_retry E _ _ _ _ _ _ _ _ _ _ Hh Hretry).
  unfold gives_up. rewrite Hthrow, Hj. cbn [prefixed fst ec_error].
  assert (Hs : get error "status" = VNum (status response)).
  { unfold error, get. by rewrite lookup_insert_ne, lookup_insert_eq. }
  assert (Hst : get error "statusText" = VStr (statusText response)).
  { unfold error, get. by rewrite lookup_insert_eq. }
  by rewrite Hs, Hst.
Qed.

(** X13: a successful HEAD call runs no [onSuccess] hook: the call returns
    right after the [onResponse] hooks. *)
Theorem head_skips_success_hooks fuel url options st p st1 evs1 r0 w2 response st3 evs3 :
  prepare E url options st = (Val p, st1, evs1) ->
  p_fetch p (get (p_context p) "url") (p_context p) (world st1) = (Ret r0, w2) ->
  run_onResponse E (onResponse (p_hooks p)) (get (get options "hookOptions") "cloneResponse")
    (p_context p) r0 (with_world st1 w2) = (Val response, st3, evs3) ->
  ok response = true ->
  get (p_context p) "method" = VStr "HEAD" ->
  exists evs,
    betterFetch E (S fuel) url options st = (Val (result (VStr EmptyString) VNull), st3, evs)
    /\ evs = EvInvoke url options :: evs1 ++
               [EvFetch (get (p_context p) "url") (p_context p);
                EvClearTimeout (p_controller p)] ++ evs3
    /\ List.filter is_onSuccess evs = []
    /\ get (result (VStr EmptyString) VNull) "data" = VStr EmptyString
    /\ get (result (VStr EmptyString) VNull) "error" = VNull.
Proof.
  intros Hp Hf Hr Hok Hm. eexists.
  split; [| split; [reflexivity | split; [| apply result_fields]]].
  - rewrite (betterFetch_response E _ _ _ _ _ _ _ _ _ _ _ _ Hp Hf Hr Hok).
    cbv zeta. rewrite Hm. cbn. by rewrite ?app_nil_r, <- ?app_assoc.
  - cbn [List.filter is_onSuccess]. rewrite !List.filter_app. cbn [List.filter is_onSuccess app].
    rewrite (filter_none is_request_phase is_onSuccess evs1 ltac:(by intros [])
               (prepare_emits E _ _ _ _ _ _ Hp)).
    by rewrite (filter_none is_response_hook is_onSuccess evs3 ltac:(by intros [])
                  (run_onResponse_emits E _ _ _ _ _ _ _ _ Hr)).
Qed.

End Hooks.

Section Loops.

Context {W : Type} (E : Env W).

Implicit Types (st : State W) (evs : list Event).

(** ** Hook lists *)

(** X14: the hook loops compose: running the [onRequest] hooks of a list
    followed by those of another, as the hooks of the plugins followed by
    those of the call, is running the first list and then the second on the
    context the first left; and likewise for the [onResponse] hooks and the
    working response. *)
Theorem hook_loops_compose :
  (forall (hs1 hs2 : list (option (value -> @Ext W (value * value)))) context st,
     run_onRequest (hs1 ++ hs2) context st =
       bind (run_onRequest hs1 context) (run_onRequest hs2) st)
  /\ (forall hs1 hs2 cloneResponse context response st,
        run_onResponse E (hs1 ++ hs2) cloneResponse context response st =
          bind (run_onResponse E hs1 cloneResponse context response)
            (run_onResponse E hs2 cloneResponse context) st).
Proof.
  split.
  - intros hs1 hs2. induction hs1 as [| [h |] hs1 IH]; intros context st; cbn [app run_onRequest].
    + by rewrite bind_ret.
    + rewrite !bind_assoc. apply bind_ext. intros _ st1.
      rewrite bind_assoc. apply bind_ext. intros [res context'] st2.
      destruct (is_object res); [| apply IH].
      rewrite bind_assoc. apply bind_ext. intros _ st3. apply IH.
    + apply IH.
  - intros hs1 hs2 cloneResponse context.
    induction hs1 as [| [h |] hs1 IH]; intros response st; cbn [app run_onResponse].
    + by rewrite bind_ret.
    + rewrite !bind_assoc. apply bind_ext. intros r' st1.
      rewrite bind_assoc. apply bind_ext. intros _ st2.
      rewrite bind_assoc. apply bind_ext. intros [| r | r] st3; apply IH.
    + apply IH.
Qed.


(** X15: when an [onError] hook throws, the call throws what the hook
    threw, on both paths into the error-handling routine: no retry decision
    is made and no delay taken even with [retry] configured, and the
    transport has been called once. *)
Theorem error_hook_failure_thrown fuel url options st errorContext hooks cloneResponse
    throwError st1 evs1 e st2 evs2 :
  routed E url options st errorContext hooks cloneResponse throwError st1 evs1 ->
  run_onError E (onError hooks) cloneResponse errorContext st1 = (Exn e, st2, evs2) ->
  betterFetch E (S fuel) url options st = (Exn e, st2, evs1 ++ evs2)
  /\ transport_calls (evs1 ++ evs2) = 1%nat
  /\ retry_decisions (evs1 ++ evs2) = []
  /\ List.filter is_sleep (evs1 ++ evs2) = List.filter is_sleep evs1.
Proof.
  intros Hr He.
  destruct (routed_events E _ _ _ _ _ _ _ _ _ Hr) as (H1 & _ & H3).
  destruct (emits_local _ _ _ _ _ _ (run_onError_emits E (onError hooks) cloneResponse errorContext)
              ltac:(by intros []) He) as (H4 & _ & H6).
  split; [| split; [| split]].
  - rewrite (routed_run E _ _ _ _ _ _ _ _ _ fuel Hr). unfold handleError.
    match goal with
    | |- context [bind ?m ?k ?s] => rewrite (bind_exn m k s _ _ _ He)
    end.
    reflexivity.
  - rewrite transport_calls_app. lia.
  - by rewrite retry_decisions_app, H3, H6.
  - rewrite List.filter_app.
    rewrite (filter_none is_error_hook is_sleep evs2 ltac:(by intros [])
               (run_onError_emits E _ _ _ _ _ _ _ He)).
    by rewrite app_nil_r.
Qed.

End Loops.

(** * The further properties on concrete calls *)

Module MoreExamples.
Import Demo Demo2.

Lemma no_retry_single_attempt_witness :
  exists o st' evs,
    betterFetch E_refused 1 "/users" (obj []) st0 = (o, st', evs)
    /\ o <> OutOfFuel /\ calls evs = [("/users", obj [])] /\ (transport_calls evs <= 1)%nat.
Proof.
  pose proof (no_retry_single_attempt E_refused 0 "/users" (obj []) st0 eq_refl) as H.
  destruct (betterFetch E_refused 1 "/users" (obj []) st0) as [[o st'] evs].
  destruct H as (Ho & Hc & Ht & _). by exists o, st', evs.
Defined.

Lemma success_without_validation_witness :
  exists st' evs,
    betterFetch E_hooked_ok 1 "/users"
      (obj [("output", obj []); ("disableValidation", VBool true)]) st0 =
      (Val (result (obj [("message", VStr "not found")]) VNull), st', evs)
    /\ List.filter is_validate evs = [].
Proof.
  edestruct (success_without_validation E_hooked_ok 0 "/users"
               (obj [("output", obj []); ("disableValidation", VBool true)]) st0)
    as (evs & Hrun & Hnone & _);
    [reflexivity | reflexivity | reflexivity | reflexivity | reflexivity | reflexivity
    | reflexivity | reflexivity |].
  eexists _, evs. split; [exact Hrun | exact Hnone].
Defined.

Lemma validated_data_returned_witness :
  exists st' evs,
    betterFetch E_hooked_ok 1 "/users" (obj [("output", obj []); ("throw", VBool true)]) st0 =
      (Val (obj [("message", VStr "not found")]), st', evs).
Proof.
  edestruct (validated_data_returned E_hooked_ok 0 "/users"
               (obj [("output", obj []); ("throw", VBool true)]) st0)
    as (Hrun & _);
    [reflexivity | reflexivity | reflexivity | reflexivity | reflexivity | reflexivity
    | reflexivity | reflexivity | reflexivity | reflexivity |].
  eexists _, _. exact Hrun.
Defined.

Lemma early_failure_thrown_witness :
  exists st' evs,
    betterFetch E_requestHookFails 1 "/users" (obj [("retry", VNum 2)]) st0 =
      (Exn hookError, st', evs)
    /\ transport_calls evs = 0%nat.
Proof.
  edestruct (early_failure_thrown E_requestHookFails 0 "/users" (obj [("retry", VNum 2)]) st0)
    as (Hrun & _); [reflexivity |].
  eexists _, _. split; [exact Hrun | reflexivity].
Defined.

Lemma response_hook_failure_thrown_witness :
  exists st' evs,
    betterFetch E_responseHookFails 1 "/users" (obj [("retry", VNum 2)]) st0 =
      (Exn hookError, st', evs)
    /\ forallb (fun ev => negb (is_error_handling ev)) evs = true.
Proof.
  edestruct (response_hook_failure_thrown E_responseHookFails 0 "/users"
               (obj [("retry", VNum 2)]) st0)
    as (evs & Hrun & _ & Hnone); [reflexivity | reflexivity | reflexivity |].
  eexists _, evs. split; [exact Hrun | exact Hnone].
Defined.

Lemma unreadable_error_body_thrown_witness :
  exists st' evs,
    betterFetch E_unreadable 1 "/users" (obj [("retry", VNum 2)]) st0 = (Exn bodyUsed, st', evs)
    /\ forallb (fun ev => negb (is_error_handling ev)) evs = true.
Proof.
  edestruct (unreadable_error_body_thrown E_unreadable 0 "/users" (obj [("retry", VNum 2)]) st0)
    as (evs & Hrun & _ & Hnone);
    [reflexivity | reflexivity | reflexivity | reflexivity | reflexivity |].
  eexists _, evs. split; [exact Hrun | exact Hnone].
Defined.

Lemma network_retry_skips_onRetry_witness :
  List.filter is_onRetry (betterFetch E_hooked_refused 2 "/users" (obj [("retry", VNum 1)]) st0).2
    = []
  /\ transport_calls (betterFetch E_hooked_refused 2 "/users" (obj [("retry", VNum 1)]) st0).2
     = 2%nat.
Proof.
  edestruct (network_retry_skips_onRetry E_hooked_refused 1 "/users" (obj [("retry", VNum 1)])
               st0)
    as (Hrun & _);
    [reflexivity | reflexivity | reflexivity | reflexivity | reflexivity | reflexivity
    | reflexivity |].
  rewrite Hrun. split; vm_compute; reflexivity.
Defined.

Lemma onError_hooks_all_called_witness :
  let errorContext :=
    {| ec_response := None; ec_responseText := None; ec_request := obj [];
       ec_error := networkError E_journal connectionRefused |} in
  exists st' evs,
    run_onError E_journal [Some (writes "first"); None; Some (writes "second")] VUndefined
      errorContext {| world := []; next_controller := 0 |} = (Val tt, st', evs)
    /\ length (List.filter is_onError evs) = 2%nat
    /\ world st' = ["second"; "first"].
Proof.
  intros errorContext. eexists _, _. split; [reflexivity |].
  edestruct (onError_hooks_all_called E_journal
               [Some (writes "first"); None; Some (writes "second")] VUndefined errorContext
               {| world := []; next_controller := 0 |})
    as (Hcount & _ & Hseq); [reflexivity |].
  split; [exact Hcount |]. exact (proj1 (proj2 (Hseq eq_refl))).
Defined.

Lemma http_error_thrown_body_witness :
  (betterFetch E_notFound 1 "/users" (obj [("throw", VBool true)]) st0).1.1 =
    Exn (BetterFetchError (VNum 404) (VStr "Not Found") (obj [("message", VStr "not found")])).
Proof.
  etransitivity;
    [eapply (http_error_thrown_body E_notFound 0 "/users" (obj [("throw", VBool true)]) st0);
     reflexivity
    | reflexivity].
Defined.

Lemma head_skips_success_hooks_witness :
  exists st' evs,
    betterFetch E_hooked_ok 1 "/users" (obj [("method", VStr "HEAD")]) st0 =
      (Val (result (VStr EmptyString) VNull), st', evs)
    /\ List.filter is_onSuccess evs = [].
Proof.
  edestruct (head_skips_success_hooks E_hooked_ok 0 "/users" (obj [("method", VStr "HEAD")]) st0)
    as (evs & Hrun & _ & Hnone & _);
    [reflexivity | reflexivity | reflexivity | reflexivity | reflexivity |].
  eexists _, evs. split; [exact Hrun | exact Hnone].
Defined.

Lemma error_hook_failure_thrown_witness :
  exists st' evs,
    betterFetch E_errorHookFails 1 "/users" (obj [("retry", VNum 2)]) st0 =
      (Exn hookError, st', evs)
    /\ transport_calls evs = 1%nat /\ retry_decisions evs = [].
Proof.
  edestruct (error_hook_failure_thrown E_errorHookFails 0 "/users" (obj [("retry", VNum 2)]) st0)
    as (Hrun & Hcalls & Hdec & _); [eapply routed_network; reflexivity | reflexivity |].
  eexists _, _. split; [exact Hrun |]. split; [exact Hcalls | exact Hdec].
Defined.

End MoreExamples.
